(** * URL shortener (url.py): a shallow embedding and its properties

    The program is a Flask application over one SQL table, [ShortURL].
    The embedding keeps the table as the list of its rows in insertion
    order, passes it explicitly through every handler, and makes the two
    sources of non-determinism explicit inputs:

    - the clock: every call of [datetime.utcnow()] is an argument of the
      function that makes it;
    - [secrets.choice]: an entropy sequence [entropy : nat -> nat] read at a
      cursor that is part of the state.

    The retry loop of [create_short_url_entry] has no bound in the source;
    it is given fuel here, and [None] means the fuel ran out. *)

From Stdlib Require Import ZArith List String Ascii Bool Arith Lia.
Import ListNotations.

Local Open Scope Z_scope.

(** ** Python and library primitives *)

Module Py.

(** [string.ascii_letters] and [string.digits]. *)
Definition ascii_lowercase : string := "abcdefghijklmnopqrstuvwxyz".
Definition ascii_uppercase : string := "ABCDEFGHIJKLMNOPQRSTUVWXYZ".
Definition ascii_letters : string := (ascii_lowercase ++ ascii_uppercase)%string.
Definition digits : string := "0123456789".

(** Truth value of a [str]: only the empty string is false. *)
Definition truthy (s : string) : bool := negb (String.eqb s "").

(** [secrets.choice(seq)] is [seq[randbelow(len(seq))]]; [r] is the raw
    number drawn from the entropy source.  The source only calls it on a
    non-empty sequence. *)
Definition choice (seq : string) (r : nat) : ascii :=
  match String.get (r mod String.length seq) seq with
  | Some c => c
  | None => Ascii.zero
  end.

(** Exceptions the program can raise.  [ValueError] carries its message,
    which is what the handlers send back. *)
Inductive exn : Type :=
| ValueError (msg : string)
| OverflowError
| IntegrityError.

Inductive result (A : Type) : Type :=
| Ok (a : A)
| Raise (e : exn).
Arguments Ok {A} a.
Arguments Raise {A} e.

End Py.
Import Py.

(** [datetime] values are counted in microseconds from 0001-01-01T00:00:00;
    the last representable instant is 9999-12-31T23:59:59.999999. *)
Module DateTime.

Definition t : Type := Z.

Definition microseconds_per_day : Z := 86400 * 1000000.

Definition max : t := 3652059 * microseconds_per_day - 1.

(** [timedelta(days=n)]. *)
Definition timedelta_days (n : Z) : Z := n * microseconds_per_day.

(** [d + delta]: [OverflowError] when the sum leaves the range. *)
Definition add (d : t) (delta : Z) : result t :=
  if (0 <=? d + delta) && (d + delta <=? max)
  then Ok (d + delta) else Raise OverflowError.

End DateTime.

(** Modelled from the spec: [validators.slug] belongs to the external
    [validators] package, which is not part of the repository.  The slug
    format is the glossary's: a non-empty string of letters, digits,
    hyphens and underscores. *)
Definition slug_char (c : ascii) : bool :=
  let n := nat_of_ascii c in
  ((97 <=? n) && (n <=? 122) || (65 <=? n) && (n <=? 90)
   || (48 <=? n) && (n <=? 57) || (n =? 45) || (n =? 95))%nat.

Definition slug (s : string) : bool :=
  negb (String.eqb s "") && forallb slug_char (list_ascii_of_string s).

(** ** Data model *)

(** A row of the table [ShortURL].  [expires_at] is the one column the
    program tests for [None]; [created_at] and [visit_count] are always
    filled by their column defaults. *)
Record ShortURL : Type := mkShortURL {
  id : Z;
  original_url : string;
  short_code : string;
  created_at : DateTime.t;
  expires_at : option DateTime.t;
  visit_count : Z
}.

Definition table : Type := list ShortURL.

(** [app.config]: the two entries the handlers read. *)
Record Config : Type := mkConfig {
  BASE_URL : string;
  DEFAULT_EXPIRATION_DAYS : Z
}.

Definition app_config : Config :=
  {| BASE_URL := "http://localhost:5000"; DEFAULT_EXPIRATION_DAYS := 30 |}.

(** The state a request runs in: the table and the position reached in the
    entropy sequence. *)
Record world : Type := mkWorld {
  rows : table;
  cursor : nat
}.

(** What a handler answers. *)
Inductive response : Type :=
| Created (short_url original_url : string)   (* 201 *)
| BadRequest (error : string)                 (* 400 *)
| Redirect (location : string)                (* 302 *)
| StatsPage (url : ShortURL) (short_url : string)
| NotFound                                    (* 404 *)
| Gone                                        (* 410 *)
| InternalServerError                         (* 500 *)
| Removed (count : nat).                      (* report of the CLI command *)

(** The three messages of [ValueError], under the names the specification
    gives to the error kinds. *)
Definition InvalidURL : string := "Invalid URL format".
Definition CodeInUse : string := "Custom code already in use".
Definition InvalidCode : string := "Invalid custom code".

(** ** The database session *)

Module Db.

(** [ShortURL.query.filter_by(short_code=code)]. *)
Definition filter_by_short_code (code : string) (tbl : table) : table :=
  filter (fun r => String.eqb (short_code r) code) tbl.

(** [.first()]. *)
Definition first (q : table) : option ShortURL := hd_error q.

(** [ShortURL.query.filter(ShortURL.expires_at < now)]: a NULL
    [expires_at] compares to NULL and is not selected. *)
Definition is_expired (now : DateTime.t) (r : ShortURL) : bool :=
  match expires_at r with
  | Some e => e <? now
  | None => false
  end.

Definition filter_expired (now : DateTime.t) (tbl : table) : table :=
  filter (is_expired now) tbl.

(** [db.session.delete(url); db.session.commit()]: the row is deleted by
    its primary key. *)
Definition delete (url : ShortURL) (tbl : table) : table :=
  filter (fun r => negb (id r =? id url)) tbl.

(** [url.visit_count += 1; db.session.commit()]: the new value is computed
    from the loaded object and written to the row with its primary key. *)
Definition set_visit_count (v : Z) (r : ShortURL) : ShortURL :=
  {| id := id r; original_url := original_url r; short_code := short_code r;
     created_at := created_at r; expires_at := expires_at r;
     visit_count := v |}.

Definition increment_visit (url : ShortURL) (tbl : table) : table :=
  map (fun r => if id r =? id url
                then set_visit_count (visit_count url + 1) r else r) tbl.

(** The key SQLite gives to a new row: one more than the largest in use. *)
Definition next_id (tbl : table) : Z :=
  1 + fold_right Z.max 0 (map id tbl).

(** [db.session.add(new_url); db.session.commit()].  The column
    [short_code] is declared [unique=True], so the insert raises
    [IntegrityError] on a code already present.  The declared length of
    [String(16)] is not checked: the configured engine is SQLite, which
    ignores the length of a VARCHAR.  [created_at] is filled by the
    column default, a call of [datetime.utcnow] made at the insert. *)
Definition add (url code : string)
    (expires : option DateTime.t) (now_insert : DateTime.t)
    (tbl : table) : result table :=
  if existsb (fun r => String.eqb (short_code r) code) tbl
  then Raise IntegrityError
  else Ok (tbl ++ [ {| id := next_id tbl;
                       original_url := url;
                       short_code := code;
                       created_at := now_insert;
                       expires_at := expires;
                       visit_count := 0 |} ])%list.

End Db.

(** ** Concrete inputs

    An entropy sequence, a URL check and tables on which the statements
    below are evaluated. *)

Module Sample.

(** Every draw is 0: each generated code is [aaaaaa]. *)
Definition zeros : nat -> nat := fun _ => O.

(** Draws 0, 1, 2, ...: the codes are [abcdef], [ghijkl], ... *)
Definition counting : nat -> nat := fun n => n.

(** A stand-in for [validators.url]: the URL starts with a scheme. *)
Definition has_scheme (url : string) : bool :=
  String.prefix "https://" url || String.prefix "http://" url.

Definition page : string := "https://example.com/page".

(** 2026-01-01T00:00:00, and the clock 250 microseconds later. *)
Definition new_year : DateTime.t := 739616 * DateTime.microseconds_per_day.
Definition a_moment_later : DateTime.t := new_year + 250.

Definition empty : world := mkWorld [] 0.

(** A row under the code [abcdef], expiring at 500. *)
Definition first_row : ShortURL :=
  mkShortURL 1 page "abcdef" 100 (Some 500) 3.

Definition one_row : world := mkWorld [first_row] 0.

(** With it a row expiring at 900 and one that never expires. *)
Definition three_rows : world :=
  mkWorld [ first_row;
            mkShortURL 2 page "my-code" 200 (Some 900) 0;
            mkShortURL 5 page "forever" 300 None 7 ] 0.

(** The table after [page] was submitted to [empty] at [new_year] with
    the entropy [zeros]. *)
Definition after_one : world :=
  mkWorld [ mkShortURL 1 page "aaaaaa" a_moment_later
              (Some (new_year + 30 * DateTime.microseconds_per_day)) 0 ] 6.

(** A slug of 17 characters. *)
Definition seventeen : string := "abcdefghijklmnopq".

(** [one_row] after [page] was submitted at 1000 with the entropy
    [counting]: [abcdef] was taken, [ghijkl] is the code. *)
Definition second_row : ShortURL :=
  mkShortURL 2 page "ghijkl" 1001 (Some (1000 + 2592000000000)) 0.

Definition two_rows : world := mkWorld [first_row; second_row] 12.

(** [first_row] after one resolution. *)
Definition first_row_visited : ShortURL :=
  mkShortURL 1 page "abcdef" 100 (Some 500) 4.

(** [after_one] after [page] was submitted again at 1000, with the custom
    code [my-code]. *)
Definition after_two : world :=
  mkWorld [ mkShortURL 1 page "aaaaaa" a_moment_later
              (Some (new_year + 30 * DateTime.microseconds_per_day)) 0;
            mkShortURL 2 page "my-code" 1001
              (Some (1000 + 30 * DateTime.microseconds_per_day)) 0 ] 6.

End Sample.

(** Closes a goal [NoDup l] on an explicit list of distinct constants. *)
Ltac distinct :=
  repeat (constructor; [simpl; intuition discriminate|]); constructor.

(** ** The program *)

Section Program.

(** The numbers [secrets] draws, in the order they are drawn. *)
Variable entropy : nat -> nat.

(** [validators.url], of the external [validators] package. *)
Variable validators_url : string -> bool.

(** [app.config]. *)
Variable config : Config.

(** [validate_url]. *)
Definition validate_url (url : string) : result string :=
  if negb (validators_url url) then Raise (ValueError InvalidURL)
  else Ok url.

(** [generate_short_code]: [length] characters, each drawn with
    [secrets.choice(chars)]; the second component is the new cursor. *)
Definition chars : string := (Py.ascii_letters ++ Py.digits)%string.

Fixpoint join_choices (length : nat) (pos : nat) : string :=
  match length with
  | O => EmptyString
  | S n => String (Py.choice chars (entropy pos)) (join_choices n (S pos))
  end.

Definition generate_short_code (length : nat) (pos : nat) : string * nat :=
  (join_choices length pos, (pos + length)%nat).

(** The default of the parameter [length]. *)
Definition default_length : nat := 6.

(** [ShortURL.query.filter_by(short_code=code).first()] as a condition. *)
Definition code_taken (code : string) (tbl : table) : bool :=
  match Db.first (Db.filter_by_short_code code tbl) with
  | Some _ => true
  | None => false
  end.

(** The loop
    [while ShortURL.query.filter_by(short_code=short_code).first():
         short_code = generate_short_code()]. *)
Fixpoint retry_while_taken (fuel : nat) (tbl : table)
    (short_code : string) (pos : nat) : option (string * nat) :=
  if code_taken short_code tbl then
    match fuel with
    | O => None
    | S fuel' =>
        let '(short_code', pos') := generate_short_code default_length pos in
        retry_while_taken fuel' tbl short_code' pos'
    end
  else Some (short_code, pos).

(** The first half of [create_short_url_entry]: the choice of the code.
    [custom_code] is [None] when the request carries none. *)
Definition choose_short_code (fuel : nat) (custom_code : option string)
    (w : world) : option (result string * nat) :=
  let generated :=
    let '(short_code, pos) := generate_short_code default_length (cursor w) in
    match retry_while_taken fuel (rows w) short_code pos with
    | Some (short_code, pos) => Some (Ok short_code, pos)
    | None => None
    end in
  match custom_code with
  | Some code =>
      if Py.truthy code then
        if code_taken code (rows w)
        then Some (Raise (ValueError CodeInUse), cursor w)
        else if negb (slug code)
        then Some (Raise (ValueError InvalidCode), cursor w)
        else Some (Ok code, cursor w)
      else generated
  | None => generated
  end.

(** [create_short_url_entry].  [now] is the clock read for the expiration,
    [now_insert] the one the column default of [created_at] makes when the
    row is inserted. *)
Definition create_short_url_entry (fuel : nat) (now now_insert : DateTime.t)
    (original_url : string) (custom_code : option string) (w : world)
    : option (result string * world) :=
  match choose_short_code fuel custom_code w with
  | None => None
  | Some (Raise e, pos) => Some (Raise e, mkWorld (rows w) pos)
  | Some (Ok short_code, pos) =>
      match DateTime.add now
              (DateTime.timedelta_days (DEFAULT_EXPIRATION_DAYS config)) with
      | Raise e => Some (Raise e, mkWorld (rows w) pos)
      | Ok expiration =>
          match Db.add original_url short_code (Some expiration)
                       now_insert (rows w) with
          | Raise e => Some (Raise e, mkWorld (rows w) pos)
          | Ok tbl => Some (Ok short_code, mkWorld tbl pos)
          end
      end
  end.

(** [BASE_URL/short_code]. *)
Definition short_url_of (short_code : string) : string :=
  (BASE_URL config ++ "/" ++ short_code)%string.

(** [api_create_short_url]: a [ValueError] becomes a 400 answer, any other
    exception leaves the handler and becomes a 500. *)
Definition api_create_short_url (fuel : nat) (now now_insert : DateTime.t)
    (original_url : string) (custom_code : option string) (w : world)
    : option (response * world) :=
  match validate_url original_url with
  | Raise (ValueError msg) => Some (BadRequest msg, w)
  | Raise _ => Some (InternalServerError, w)
  | Ok _ =>
      match create_short_url_entry fuel now now_insert
                                   original_url custom_code w with
      | None => None
      | Some (Ok short_code, w') =>
          Some (Created (short_url_of short_code) original_url, w')
      | Some (Raise (ValueError msg), w') => Some (BadRequest msg, w')
      | Some (Raise _, w') => Some (InternalServerError, w')
      end
  end.

(** [redirect_url]. *)
Definition redirect_url (now : DateTime.t) (short_code : string) (w : world)
    : response * world :=
  match Db.first (Db.filter_by_short_code short_code (rows w)) with
  | None => (NotFound, w)
  | Some url =>
      match expires_at url with
      | Some e =>
          if e <? now
          then (Gone, mkWorld (Db.delete url (rows w)) (cursor w))
          else (Redirect (original_url url),
                mkWorld (Db.increment_visit url (rows w)) (cursor w))
      | None =>
          (Redirect (original_url url),
           mkWorld (Db.increment_visit url (rows w)) (cursor w))
      end
  end.

(** [url_stats]. *)
Definition url_stats (code : string) (w : world) : response * world :=
  match Db.first (Db.filter_by_short_code code (rows w)) with
  | None => (NotFound, w)
  | Some url => (StatsPage url (short_url_of (short_code url)), w)
  end.

(** [cleanup_expired_urls]: deletes the selected rows one by one and
    reports how many were selected. *)
Definition cleanup_expired_urls (now : DateTime.t) (w : world)
    : response * world :=
  let expired := Db.filter_expired now (rows w) in
  (Removed (List.length expired),
   mkWorld (fold_left (fun tbl url => Db.delete url tbl) expired (rows w))
           (cursor w)).

(** Requests, and the states the program can reach from an empty table. *)
Inductive request : Type :=
| Shorten (fuel : nat) (now now_insert : DateTime.t)
          (original_url : string) (custom_code : option string)
| Visit (now : DateTime.t) (short_code : string)
| Stats (short_code : string)
| Cleanup (now : DateTime.t).

Definition handle (rq : request) (w : world) : option (response * world) :=
  match rq with
  | Shorten fuel now now_insert original_url custom_code =>
      api_create_short_url fuel now now_insert original_url custom_code w
  | Visit now short_code => Some (redirect_url now short_code w)
  | Stats short_code => Some (url_stats short_code w)
  | Cleanup now => Some (cleanup_expired_urls now w)
  end.

Inductive reachable : world -> Prop :=
| reachable_start : forall pos, reachable (mkWorld [] pos)
| reachable_step : forall w rq resp w',
    reachable w -> handle rq w = Some (resp, w') -> reachable w'.


(** ** Invariants of the table *)

(** The constraint [unique=True] of the column [short_code]. *)
Definition unique_codes (tbl : table) : Prop := NoDup (map short_code tbl).

(** The constraint [primary_key=True] of the column [id]. *)
Definition unique_ids (tbl : table) : Prop := NoDup (map id tbl).

(** Every stored code has the slug format. *)
Definition slug_codes (tbl : table) : Prop :=
  Forall (fun r => slug (short_code r) = true) tbl.

(** A character of the 62-character alphabet: a lowercase letter, an
    uppercase letter or a digit. *)
Definition alphanumeric (c : ascii) : bool :=
  let n := nat_of_ascii c in
  ((97 <=? n) && (n <=? 122) || (65 <=? n) && (n <=? 90)
   || (48 <=? n) && (n <=? 57))%nat.

(** The code tried at the [k]-th turn of the loop when the cursor is at
    [pos] on entry. *)
Definition candidate (pos k : nat) : string :=
  join_choices default_length (pos + default_length * k).

(** The expiration a submission made at [now] computes. *)
Definition expiration_from (now : DateTime.t) : DateTime.t :=
  now + DateTime.timedelta_days (DEFAULT_EXPIRATION_DAYS config).

(** The row a submission appends to [tbl]. *)
Definition new_row (tbl : table) (url code : string)
    (now now_insert : DateTime.t) : ShortURL :=
  {| id := Db.next_id tbl; original_url := url; short_code := code;
     created_at := now_insert; expires_at := Some (expiration_from now);
     visit_count := 0 |}.

(** The request carries no usable custom code: none, or the empty string. *)
Definition no_custom_code (custom_code : option string) : Prop :=
  custom_code = None \/ custom_code = Some EmptyString.

(** The ways a request changes the table. *)
Inductive table_step (tbl : table) : table -> Prop :=
| step_same : table_step tbl tbl
| step_append : forall url code now now_insert,
    code_taken code tbl = false -> slug code = true ->
    table_step tbl (tbl ++ [new_row tbl url code now now_insert])
| step_filter : forall keep, table_step tbl (filter keep tbl)
| step_increment : forall url, table_step tbl (Db.increment_visit url tbl).

(** [expires_at] is set and after [now]. *)
Definition expires_later (now : DateTime.t) (r : ShortURL) : bool :=
  match expires_at r with
  | Some e => now <? e
  | None => false
  end.

(** A sequence of requests, answered in order. *)
Fixpoint run (rqs : list request) (w : world) : option world :=
  match rqs with
  | [] => Some w
  | rq :: rest =>
      match handle rq w with
      | Some (_, w') => run rest w'
      | None => None
      end
  end.

(** Requests that create no row. *)
Definition creates_nothing (rq : request) : bool :=
  match rq with
  | Shorten _ _ _ _ _ => false
  | _ => true
  end.

(** ** The form route *)

(** [request.form]: the fields a POST of the form carries.  A text field
    left blank arrives as the empty string; a field that is not sent is
    absent. *)
Record form : Type := mkForm {
  form_url : option string;
  form_custom_code : option string
}.

(** What the HTML routes answer. *)
Inductive page : Type :=
| ResultPage (short_url original_url : string)  (* result.html, 200 *)
| IndexPage (error : option string)  (* index.html: 400 with an error, else 200 *)
| ErrorPage (code : nat)             (* error.html, from handle_exception *)
| Crash.                             (* an exception no handler catches: 500 *)

(** [create_short_url].  [request.form['url']] on a form without the field
    raises [BadRequestKeyError], an [HTTPException] of code 400 that
    [handle_exception] renders. *)
Definition create_short_url (fuel : nat) (now now_insert : DateTime.t)
    (f : form) (w : world) : option (page * world) :=
  match form_url f with
  | None => Some (ErrorPage 400, w)
  | Some original_url =>
      match validate_url original_url with
      | Raise (ValueError msg) => Some (IndexPage (Some msg), w)
      | Raise _ => Some (Crash, w)
      | Ok _ =>
          match create_short_url_entry fuel now now_insert original_url
                                       (form_custom_code f) w with
          | None => None
          | Some (Ok code, w') =>
              Some (ResultPage (short_url_of code) original_url, w')
          | Some (Raise (ValueError msg), w') =>
              Some (IndexPage (Some msg), w')
          | Some (Raise _, w') => Some (Crash, w')
          end
      end
  end.

(** [index]. *)
Inductive http_method : Type := GET | POST.

Definition index (method : http_method) (fuel : nat)
    (now now_insert : DateTime.t) (f : form) (w : world)
    : option (page * world) :=
  match method with
  | POST => create_short_url fuel now now_insert f w
  | GET => Some (IndexPage None, w)
  end.

(** The same code resolved once at each of the times [ts], in order. *)
Fixpoint redirect_each (ts : list DateTime.t) (code : string) (w : world)
    : list response * world :=
  match ts with
  | [] => ([], w)
  | t :: rest =>
      let '(resp, w1) := redirect_url t code w in
      let '(resps, w2) := redirect_each rest code w1 in
      (resp :: resps, w2)
  end.

(** A row that went through a request: every column but [visit_count] is
    the same, and [visit_count] did not go down. *)
Definition same_but_visited (r r' : ShortURL) : Prop :=
  id r' = id r /\ original_url r' = original_url r /\
  short_code r' = short_code r /\ created_at r' = created_at r /\
  expires_at r' = expires_at r /\ visit_count r <= visit_count r'.

(** The request stores a row under [code]: it is the submission of a URL
    that [validators.url] accepts and for which [create_short_url_entry]
    returns [code]. *)
Definition stores_code (code : string) (rq : request) (w : world) : Prop :=
  match rq with
  | Shorten fuel now now_insert original_url custom_code =>
      validators_url original_url = true /\
      exists w',
        create_short_url_entry fuel now now_insert original_url custom_code w
        = Some (Ok code, w')
  | _ => False
  end.

(** A sequence of requests, answered in order, none of which stores a row
    under [code]. *)
Inductive run_without (code : string) : world -> list request -> world -> Prop :=
| run_without_nil : forall w, run_without code w [] w
| run_without_cons : forall w rq resp w1 rqs w2,
    handle rq w = Some (resp, w1) ->
    ~ stores_code code rq w ->
    run_without code w1 rqs w2 ->
    run_without code w (rq :: rqs) w2.

(** The largest value an INTEGER column of SQLite holds. *)
Definition sqlite_max_integer : Z := 2 ^ 63 - 1.

(** ** Lists and rows *)

Lemma NoDup_snoc {A : Type} (l : list A) (a : A) :
  NoDup l -> ~ In a l -> NoDup (l ++ [a]).
Proof.
  induction l as [|x l IH]; simpl; intros Hnd Hin.
  - constructor; [intros [] | constructor].
  - inversion Hnd as [|? ? Hx Hl]; subst.
    constructor.
    + rewrite in_app_iff; simpl. intros [H | [H | []]]; [now apply Hx|].
      apply Hin; now left.
    + apply IH; [assumption|]. intro H; apply Hin; now right.
Qed.

(** A key that is unique in a table is unique among the rows a query
    selects. *)
Lemma selected_rows_distinct {K : Type} (key : ShortURL -> K)
    (keep : ShortURL -> bool) (tbl : table) (Hnd : NoDup (map key tbl)) :
  NoDup (map key (filter keep tbl)).
Proof.
  induction tbl as [|x tbl IH]; simpl; [constructor|].
  inversion Hnd as [|? ? Hx Hl]; subst.
  destruct (keep x); simpl; [|now apply IH].
  constructor; [|now apply IH].
  intro H; apply Hx. apply in_map_iff in H as (y & Hy & Hin).
  apply filter_In in Hin as [Hin _]. apply in_map_iff; eauto.
Qed.

Lemma NoDup_map_eq {A B : Type} (f : A -> B) (l : list A) (x y : A) :
  NoDup (map f l) -> In x l -> In y l -> f x = f y -> x = y.
Proof.
  induction l as [|a l IH]; simpl; intros Hnd Hx Hy Hf; [contradiction|].
  inversion Hnd as [|? ? Ha Hl]; subst.
  destruct Hx as [-> | Hx], Hy as [-> | Hy]; auto.
  - exfalso; apply Ha. rewrite Hf. now apply in_map.
  - exfalso; apply Ha. rewrite <- Hf. now apply in_map.
Qed.

Lemma code_taken_existsb (code : string) (tbl : table) :
  code_taken code tbl = existsb (fun r => String.eqb (short_code r) code) tbl.
Proof.
  unfold code_taken, Db.first, Db.filter_by_short_code.
  induction tbl as [|x tbl IH]; simpl; [reflexivity|].
  destruct (String.eqb (short_code x) code); simpl; [reflexivity | exact IH].
Qed.

Lemma code_taken_false (code : string) (tbl : table) :
  code_taken code tbl = false <-> ~ In code (map short_code tbl).
Proof.
  rewrite code_taken_existsb. split.
  - intros H Hin. apply in_map_iff in Hin as (r & Hr & Hin).
    assert (existsb (fun r => String.eqb (short_code r) code) tbl = true).
    { apply existsb_exists. exists r. split; [assumption|].
      now apply String.eqb_eq. }
    congruence.
  - intros H. destruct (existsb _ tbl) eqn:E; [|reflexivity].
    apply existsb_exists in E as (r & Hin & Hr). apply String.eqb_eq in Hr.
    exfalso; apply H. apply in_map_iff; eauto.
Qed.

Lemma first_none_not_taken (code : string) (tbl : table) :
  Db.first (Db.filter_by_short_code code tbl) = None <->
  code_taken code tbl = false.
Proof.
  unfold code_taken. destruct (Db.first _); split; congruence.
Qed.

Lemma first_in (code : string) (tbl : table) (url : ShortURL) :
  Db.first (Db.filter_by_short_code code tbl) = Some url ->
  In url tbl /\ short_code url = code.
Proof.
  unfold Db.first, Db.filter_by_short_code. intros H.
  assert (Hin : In url (filter (fun r => String.eqb (short_code r) code) tbl)).
  { destruct (filter _ tbl); simpl in H; [discriminate|].
    injection H as ->. now left. }
  apply filter_In in Hin as [Hin Hc]. split; [assumption|].
  now apply String.eqb_eq.
Qed.

(** With unique codes the query finds the row itself. *)
Lemma first_of_member (tbl : table) (url : ShortURL) :
  unique_codes tbl -> In url tbl ->
  Db.first (Db.filter_by_short_code (short_code url) tbl) = Some url.
Proof.
  intros Hu Hin.
  destruct (Db.first (Db.filter_by_short_code (short_code url) tbl))
    as [r|] eqn:E.
  - apply first_in in E as [Hr Hc]. f_equal.
    now apply (NoDup_map_eq short_code tbl).
  - apply first_none_not_taken, code_taken_false in E.
    exfalso; apply E. now apply in_map.
Qed.

Lemma first_after_add (code : string) (tbl : table) (r : ShortURL) :
  code_taken code tbl = false -> short_code r = code ->
  Db.first (Db.filter_by_short_code code (tbl ++ [r])) = Some r.
Proof.
  intros Hfree Hr. rewrite code_taken_existsb in Hfree.
  unfold Db.first, Db.filter_by_short_code.
  induction tbl as [|x tbl IH]; simpl in *.
  - rewrite Hr, String.eqb_refl. reflexivity.
  - apply orb_false_iff in Hfree as [Hx Hrest].
    rewrite Hx. now apply IH.
Qed.

Lemma first_after_increment (code : string) (tbl : table) (url : ShortURL) :
  Db.first (Db.filter_by_short_code code tbl) = Some url ->
  Db.first (Db.filter_by_short_code code (Db.increment_visit url tbl))
  = Some (Db.set_visit_count (visit_count url + 1) url).
Proof.
  unfold Db.first, Db.filter_by_short_code, Db.increment_visit.
  induction tbl as [|x tbl IH]; simpl; [discriminate|].
  destruct (String.eqb (short_code x) code) eqn:Ex; simpl.
  - intros H; injection H as ->. rewrite Z.eqb_refl. simpl.
    rewrite Ex. reflexivity.
  - intros H. destruct (id x =? id url); simpl; rewrite Ex; now apply IH.
Qed.

Lemma increment_keeps_codes (url : ShortURL) (tbl : table) :
  map short_code (Db.increment_visit url tbl) = map short_code tbl.
Proof.
  unfold Db.increment_visit. rewrite map_map. apply map_ext.
  intros r. now destruct (id r =? id url).
Qed.

Lemma increment_keeps_ids (url : ShortURL) (tbl : table) :
  map id (Db.increment_visit url tbl) = map id tbl.
Proof.
  unfold Db.increment_visit. rewrite map_map. apply map_ext.
  intros r. now destruct (id r =? id url).
Qed.

Lemma id_below_next (tbl : table) (r : ShortURL) :
  In r tbl -> id r < Db.next_id tbl.
Proof.
  unfold Db.next_id. induction tbl as [|x tbl IH]; [contradiction|].
  cbn [map fold_right In]. intros [-> | Hin]; [lia|].
  specialize (IH Hin). lia.
Qed.

Lemma next_id_fresh (tbl : table) : ~ In (Db.next_id tbl) (map id tbl).
Proof.
  intros H. apply in_map_iff in H as (r & Hr & Hin).
  apply id_below_next in Hin. lia.
Qed.

(** ** The code generator *)

Lemma chars_length : String.length chars = 62%nat.
Proof. reflexivity. Qed.

Lemma get_in (s : string) (i : nat) (c : ascii) :
  String.get i s = Some c -> In c (list_ascii_of_string s).
Proof.
  revert i. induction s as [|a s IH]; simpl; intros i H; [discriminate|].
  destruct i as [|i]; [injection H as ->; now left|].
  right. now apply (IH i).
Qed.

Lemma get_below (s : string) (i : nat) :
  (i < String.length s)%nat -> exists c, String.get i s = Some c.
Proof.
  revert i. induction s as [|a s IH]; simpl; intros i H; [lia|].
  destruct i as [|i]; [now exists a|]. apply IH. lia.
Qed.

Lemma choice_in_chars (r : nat) :
  In (Py.choice chars r) (list_ascii_of_string chars).
Proof.
  unfold Py.choice.
  destruct (get_below chars (r mod String.length chars)) as [c Hc].
  - apply Nat.mod_upper_bound. rewrite chars_length. discriminate.
  - rewrite Hc. exact (get_in chars _ c Hc).
Qed.

Lemma chars_alphanumeric (c : ascii) :
  In c (list_ascii_of_string chars) -> alphanumeric c = true.
Proof.
  assert (H : forallb alphanumeric (list_ascii_of_string chars) = true)
    by reflexivity.
  rewrite forallb_forall in H. apply H.
Qed.

Lemma alphanumeric_slug_char (c : ascii) :
  alphanumeric c = true -> slug_char c = true.
Proof.
  unfold alphanumeric, slug_char. cbv zeta. intros ->. reflexivity.
Qed.

Lemma join_choices_length (n pos : nat) :
  String.length (join_choices n pos) = n.
Proof.
  revert pos. induction n as [|n IH]; simpl; intros pos; [reflexivity|].
  now rewrite IH.
Qed.

Lemma join_choices_chars (n pos : nat) :
  Forall (fun c => In c (list_ascii_of_string chars))
         (list_ascii_of_string (join_choices n pos)).
Proof.
  revert pos. induction n as [|n IH]; simpl; intros pos; constructor.
  - apply choice_in_chars.
  - apply IH.
Qed.

Lemma join_choices_slug (n pos : nat) : slug (join_choices (S n) pos) = true.
Proof.
  unfold slug. apply andb_true_iff. split; [reflexivity|].
  apply forallb_forall. intros c Hc.
  apply alphanumeric_slug_char, chars_alphanumeric.
  pose proof (join_choices_chars (S n) pos) as H.
  rewrite Forall_forall in H. now apply H.
Qed.

(** ** The retry loop *)

Lemma retry_unfold (fuel : nat) (tbl : table) (code : string) (pos : nat) :
  retry_while_taken fuel tbl code pos =
  if code_taken code tbl then
    match fuel with
    | O => None
    | S fuel' =>
        retry_while_taken fuel' tbl (join_choices default_length pos)
                          (pos + default_length)
    end
  else Some (code, pos).
Proof. destruct fuel; reflexivity. Qed.

(** What the loop returns is free, and is the code it was entered with or
    a generated one. *)
Lemma retry_result (fuel : nat) (tbl : table) :
  forall code pos code' pos',
    retry_while_taken fuel tbl code pos = Some (code', pos') ->
    code_taken code' tbl = false /\
    (code' = code \/ exists p, code' = join_choices default_length p).
Proof.
  induction fuel as [|fuel IH]; intros code pos code' pos';
    rewrite retry_unfold; destruct (code_taken code tbl) eqn:E;
    try discriminate.
  - intros H; injection H as <- <-. auto.
  - intros H. apply IH in H as [Hfree [-> | Hgen]]; eauto.
  - intros H; injection H as <- <-. auto.
Qed.

(** The loop ends as soon as the entropy yields a free code: if the
    [k]-th candidate is free and the fuel allows [k] turns, the loop
    returns the first free candidate. *)
Lemma retry_finds (tbl : table) (k : nat) :
  forall fuel pos,
    (k <= fuel)%nat ->
    code_taken (candidate pos k) tbl = false ->
    exists j, (j <= k)%nat /\
      code_taken (candidate pos j) tbl = false /\
      retry_while_taken fuel tbl (join_choices default_length pos)
                        (pos + default_length)
      = Some (candidate pos j, (pos + default_length * S j)%nat).
Proof.
  unfold candidate, default_length.
  induction k as [|k IH]; intros fuel pos Hk Hfree; rewrite retry_unfold.
  - exists O. replace (pos + 6 * 0)%nat with pos in * by lia.
    split; [lia|]. split; [assumption|].
    rewrite Hfree. f_equal; f_equal; lia.
  - destruct (code_taken (join_choices 6 pos) tbl) eqn:E.
    + destruct fuel as [|fuel]; [lia|].
      destruct (IH fuel (pos + 6)%nat) as (j & Hj & Hjfree & Hrun); [lia| |].
      * replace (pos + 6 + 6 * k)%nat with (pos + 6 * S k)%nat by lia.
        exact Hfree.
      * exists (S j).
        replace (pos + 6 * S j)%nat with (pos + 6 + 6 * j)%nat by lia.
        split; [lia|]. split; [assumption|].
        unfold default_length. rewrite Hrun. f_equal; f_equal; lia.
    + exists O. replace (pos + 6 * 0)%nat with pos by lia.
      split; [lia|]. split; [assumption|]. f_equal; f_equal; lia.
Qed.

(** ** Submission *)

Lemma truthy_false (s : string) : Py.truthy s = false <-> s = EmptyString.
Proof.
  unfold Py.truthy. rewrite negb_false_iff. apply String.eqb_eq.
Qed.

Lemma choose_without_custom (fuel : nat) (custom_code : option string)
    (w : world) :
  no_custom_code custom_code ->
  choose_short_code fuel custom_code w =
  match retry_while_taken fuel (rows w)
          (join_choices default_length (cursor w))
          (cursor w + default_length) with
  | Some (short_code, pos) => Some (Ok short_code, pos)
  | None => None
  end.
Proof. intros [-> | ->]; reflexivity. Qed.

(** A code is chosen only if it is free; a custom one has the slug
    format, any other is a generated one. *)
Lemma choose_ok (fuel : nat) (custom_code : option string) (w : world)
    (code : string) (pos : nat) :
  choose_short_code fuel custom_code w = Some (Ok code, pos) ->
  code_taken code (rows w) = false /\
  ((custom_code = Some code /\ Py.truthy code = true /\ slug code = true
    /\ pos = cursor w)
   \/ (no_custom_code custom_code
       /\ exists p, code = join_choices default_length p)).
Proof.
  assert (Hgen : no_custom_code custom_code ->
    choose_short_code fuel custom_code w = Some (Ok code, pos) ->
    code_taken code (rows w) = false /\
    exists p, code = join_choices default_length p).
  { intros Hno. rewrite (choose_without_custom _ _ _ Hno).
    destruct (retry_while_taken _ _ _ _) as [[c p]|] eqn:E; [|discriminate].
    intros H; injection H as <- <-.
    apply retry_result in E as [Hfree [-> | Hp]]; eauto. }
  destruct custom_code as [c|].
  - destruct (Py.truthy c) eqn:Et.
    + unfold choose_short_code. rewrite Et.
      destruct (code_taken c (rows w)) eqn:Ec; [discriminate|].
      destruct (slug c) eqn:Es; simpl; [|discriminate].
      intros H; injection H as <- <-. split; [assumption|]. left. auto.
    + apply truthy_false in Et as ->. intros H.
      destruct (Hgen (or_intror eq_refl) H) as [Hfree Hp].
      split; [assumption|]. right. split; [now right | assumption].
  - intros H. destruct (Hgen (or_introl eq_refl) H) as [Hfree Hp].
    split; [assumption|]. right. split; [now left | assumption].
Qed.

(** The cases in which the choice of the code fails. *)
Lemma choose_raise (fuel : nat) (custom_code : option string) (w : world)
    (e : exn) (pos : nat) :
  choose_short_code fuel custom_code w = Some (Raise e, pos) ->
  exists code, custom_code = Some code /\ Py.truthy code = true /\
    ((code_taken code (rows w) = true /\ e = ValueError CodeInUse) \/
     (code_taken code (rows w) = false /\ slug code = false
      /\ e = ValueError InvalidCode)).
Proof.
  assert (Hgen : no_custom_code custom_code ->
    choose_short_code fuel custom_code w <> Some (Raise e, pos)).
  { intros Hno. rewrite (choose_without_custom _ _ _ Hno).
    destruct (retry_while_taken _ _ _ _) as [[c p]|]; discriminate. }
  destruct custom_code as [c|].
  - destruct (Py.truthy c) eqn:Et.
    + unfold choose_short_code. rewrite Et.
      destruct (code_taken c (rows w)) eqn:Ec.
      * intros H; injection H as <- <-. exists c. auto.
      * destruct (slug c) eqn:Es; simpl; [discriminate|].
        intros H; injection H as <- <-. exists c. auto 6.
    + apply truthy_false in Et as ->. intros H.
      now destruct (Hgen (or_intror eq_refl)).
  - intros H. now destruct (Hgen (or_introl eq_refl)).
Qed.

Lemma add_free (url code : string) (expires : option DateTime.t)
    (now_insert : DateTime.t) (tbl : table) :
  code_taken code tbl = false ->
  Db.add url code expires now_insert tbl =
  Ok (tbl ++ [ mkShortURL (Db.next_id tbl) url code now_insert expires 0 ]).
Proof.
  intros H. unfold Db.add. rewrite <- code_taken_existsb, H. reflexivity.
Qed.

(** A successful [create_short_url_entry] appends exactly one row. *)
Lemma create_ok (fuel : nat) (now now_insert : DateTime.t)
    (url : string) (custom_code : option string) (w w' : world)
    (code : string) :
  create_short_url_entry fuel now now_insert url custom_code w
  = Some (Ok code, w') ->
  exists pos,
    choose_short_code fuel custom_code w = Some (Ok code, pos) /\
    w' = mkWorld (rows w ++ [new_row (rows w) url code now now_insert]) pos.
Proof.
  unfold create_short_url_entry.
  destruct (choose_short_code fuel custom_code w) as [[[c|e] pos]|] eqn:E;
    try discriminate.
  pose proof (choose_ok _ _ _ _ _ E) as [Hfree _].
  unfold DateTime.add.
  destruct ((0 <=? _) && (_ <=? DateTime.max)); [|discriminate].
  rewrite (add_free _ _ _ _ _ Hfree).
  intros H; injection H as <- <-. exists pos. split; reflexivity.
Qed.

(** A failed [create_short_url_entry] leaves the table as it was. *)
Lemma create_raise (fuel : nat) (now now_insert : DateTime.t)
    (url : string) (custom_code : option string) (w w' : world) (e : exn) :
  create_short_url_entry fuel now now_insert url custom_code w
  = Some (Raise e, w') ->
  rows w' = rows w.
Proof.
  unfold create_short_url_entry.
  destruct (choose_short_code fuel custom_code w) as [[[c|e'] pos]|];
    try discriminate.
  - destruct (DateTime.add _ _).
    + destruct (Db.add _ _ _ _ _); [discriminate|].
      intros H; injection H as _ <-. reflexivity.
    + intros H; injection H as _ <-. reflexivity.
  - intros H; injection H as _ <-. reflexivity.
Qed.

(** Inside the range of [datetime] the sum does not overflow. *)
Lemma datetime_add_ok (now : DateTime.t) (delta : Z) :
  0 <= now + delta <= DateTime.max ->
  DateTime.add now delta = Ok (now + delta).
Proof.
  intros [H0 H1]. unfold DateTime.add.
  apply Z.leb_le in H0, H1. now rewrite H0, H1.
Qed.

(** With no custom code, a free candidate within the fuel and an
    expiration inside the range of [datetime], the submission succeeds
    with the first free candidate. *)
Lemma create_generated (fuel k : nat) (now now_insert : DateTime.t)
    (url : string) (custom_code : option string) (w : world) :
  no_custom_code custom_code ->
  (k <= fuel)%nat ->
  code_taken (candidate (cursor w) k) (rows w) = false ->
  0 <= expiration_from now <= DateTime.max ->
  exists j, (j <= k)%nat /\
    code_taken (candidate (cursor w) j) (rows w) = false /\
    create_short_url_entry fuel now now_insert url custom_code w =
    Some (Ok (candidate (cursor w) j),
          mkWorld (rows w ++ [new_row (rows w) url (candidate (cursor w) j)
                                      now now_insert])
                  (cursor w + default_length * S j)).
Proof.
  intros Hno Hk Hfree Hrange.
  destruct (retry_finds (rows w) k fuel (cursor w) Hk Hfree)
    as (j & Hj & Hjfree & Hrun).
  exists j. split; [assumption|]. split; [assumption|].
  unfold create_short_url_entry.
  rewrite (choose_without_custom _ _ _ Hno), Hrun.
  rewrite (datetime_add_ok _ _ Hrange), (add_free _ _ _ _ _ Hjfree).
  reflexivity.
Qed.

Lemma api_created (fuel : nat) (now now_insert : DateTime.t)
    (url : string) (custom_code : option string) (w w' : world)
    (short_url url' : string) :
  api_create_short_url fuel now now_insert url custom_code w
  = Some (Created short_url url', w') ->
  exists code,
    short_url = short_url_of code /\ url' = url /\
    validators_url url = true /\
    create_short_url_entry fuel now now_insert url custom_code w
    = Some (Ok code, w').
Proof.
  unfold api_create_short_url, validate_url.
  destruct (validators_url url); simpl; [|discriminate].
  destruct (create_short_url_entry _ _ _ _ _ _) as [[[c|[m| |]] w1]|];
    try discriminate.
  intros H; injection H as <- <- <-. exists c. auto.
Qed.

Lemma api_not_created (fuel : nat) (now now_insert : DateTime.t)
    (url : string) (custom_code : option string) (w w' : world)
    (resp : response) :
  api_create_short_url fuel now now_insert url custom_code w
  = Some (resp, w') ->
  (forall short_url url', resp <> Created short_url url') ->
  rows w' = rows w.
Proof.
  unfold api_create_short_url, validate_url.
  destruct (validators_url url); simpl.
  - destruct (create_short_url_entry _ _ _ _ _ _) as [[[c|e] w1]|] eqn:E;
      try discriminate.
    + intros H; injection H as <- <-. intros Hne.
      now destruct (Hne (short_url_of c) url).
    + apply create_raise in E.
      destruct e; intros H; injection H as <- <-; auto.
  - intros H; injection H as <- <-. reflexivity.
Qed.

(** ** Deleting rows *)

(** Deleting the selected rows one by one keeps the rows whose key is
    not a selected one. *)
Lemma delete_all (selected tbl : table) :
  fold_left (fun t url => Db.delete url t) selected tbl =
  filter (fun r => negb (existsb (fun u => id r =? id u) selected)) tbl.
Proof.
  revert tbl. induction selected as [|u selected IH]; intros tbl; simpl.
  - induction tbl as [|x tbl IHt]; simpl; [reflexivity | now rewrite <- IHt].
  - rewrite IH. unfold Db.delete.
    induction tbl as [|x tbl IHt]; simpl; [reflexivity|].
    destruct (id x =? id u); simpl; [exact IHt|].
    destruct (existsb _ selected); simpl; [exact IHt | now rewrite IHt].
Qed.

(** With unique keys, deleting a row of the table removes that row and
    no other. *)
Lemma delete_member (tbl : table) (url r : ShortURL) :
  unique_ids tbl -> In url tbl ->
  (In r (Db.delete url tbl) <-> In r tbl /\ r <> url).
Proof.
  intros Hu Hin. unfold Db.delete. rewrite filter_In, negb_true_iff, Z.eqb_neq.
  split; intros [Hr Hne]; split; try assumption.
  - intros ->. now apply Hne.
  - intros Hid. apply Hne. now apply (NoDup_map_eq id tbl).
Qed.

(** With unique keys, the sweep keeps exactly the rows that are not
    expired. *)
Lemma delete_expired (now : DateTime.t) (tbl : table) :
  unique_ids tbl ->
  fold_left (fun t url => Db.delete url t) (Db.filter_expired now tbl) tbl =
  filter (fun r => negb (Db.is_expired now r)) tbl.
Proof.
  intros Hu. rewrite delete_all. apply filter_ext_in. intros r Hr. f_equal.
  unfold Db.filter_expired.
  destruct (Db.is_expired now r) eqn:E.
  - apply existsb_exists. exists r. split; [|apply Z.eqb_refl].
    apply filter_In. auto.
  - destruct (existsb _ _) eqn:Ex; [|reflexivity].
    apply existsb_exists in Ex as (u & Hu' & Hid).
    apply filter_In in Hu' as [Hin Hexp]. apply Z.eqb_eq in Hid.
    assert (r = u) by now apply (NoDup_map_eq id tbl).
    congruence.
Qed.

(** ** Every request is a table step *)

Lemma handle_table_step (rq : request) (w w' : world) (resp : response) :
  handle rq w = Some (resp, w') -> table_step (rows w) (rows w').
Proof.
  destruct rq as [fuel now ni url custom | now code | code | now]; simpl.
  - intros H.
    assert (Hcases : (exists su u, resp = Created su u) \/
                     (forall su u, resp <> Created su u)).
    { destruct resp; try (right; discriminate). left; eauto. }
    destruct Hcases as [(su & u & ->) | Hne].
    + apply api_created in H as (c & _ & _ & _ & H).
      apply create_ok in H as (pos & Hc & ->). simpl.
      apply choose_ok in Hc as [Hfree Hkind].
      apply step_append; [assumption|].
      destruct Hkind as [(_ & _ & Hs & _) | (_ & p & ->)]; [assumption|].
      apply join_choices_slug.
    + rewrite (api_not_created _ _ _ _ _ _ _ _ H Hne). constructor.
  - unfold redirect_url.
    destruct (Db.first _) as [url|]; [|intros H; injection H as _ <-; constructor].
    destruct (expires_at url) as [e|].
    + destruct (e <? now); intros H; injection H as _ <-; simpl.
      * apply step_filter.
      * apply step_increment.
    + intros H; injection H as _ <-; simpl. apply step_increment.
  - unfold url_stats. destruct (Db.first _);
      intros H; injection H as _ <-; constructor.
  - unfold cleanup_expired_urls. intros H; injection H as _ <-; simpl.
    rewrite delete_all. apply step_filter.
Qed.

Lemma table_step_unique_codes (tbl tbl' : table) :
  table_step tbl tbl' -> unique_codes tbl -> unique_codes tbl'.
Proof.
  unfold unique_codes. intros [|url code now ni Hfree Hs|keep|url] Hu.
  - assumption.
  - rewrite map_app. simpl. apply NoDup_snoc; [assumption|].
    now apply code_taken_false.
  - now apply selected_rows_distinct.
  - now rewrite increment_keeps_codes.
Qed.

Lemma table_step_unique_ids (tbl tbl' : table) :
  table_step tbl tbl' -> unique_ids tbl -> unique_ids tbl'.
Proof.
  unfold unique_ids. intros [|url code now ni Hfree Hs|keep|url] Hu.
  - assumption.
  - rewrite map_app. simpl. apply NoDup_snoc; [assumption|].
    apply next_id_fresh.
  - now apply selected_rows_distinct.
  - now rewrite increment_keeps_ids.
Qed.

Lemma table_step_slug_codes (tbl tbl' : table) :
  table_step tbl tbl' -> slug_codes tbl -> slug_codes tbl'.
Proof.
  unfold slug_codes. intros [|url code now ni Hfree Hs|keep|url] Hu.
  - assumption.
  - apply Forall_app. split; [assumption|]. constructor; [exact Hs|constructor].
  - rewrite Forall_forall in *. intros r Hr.
    apply filter_In in Hr as [Hr _]. now apply Hu.
  - rewrite Forall_forall in *. intros r Hr.
    unfold Db.increment_visit in Hr. apply in_map_iff in Hr as (x & <- & Hx).
    destruct (id x =? id url); simpl; now apply Hu.
Qed.

Lemma reachable_invariants (w : world) :
  reachable w ->
  unique_codes (rows w) /\ unique_ids (rows w) /\ slug_codes (rows w).
Proof.
  induction 1 as [pos | w rq resp w' _ (Hc & Hi & Hs) H]; simpl.
  - repeat split; constructor.
  - apply handle_table_step in H.
    split; [|split].
    + now apply (table_step_unique_codes (rows w)).
    + now apply (table_step_unique_ids (rows w)).
    + now apply (table_step_slug_codes (rows w)).
Qed.

(** ** Resolution *)

Lemma redirect_absent (now : DateTime.t) (code : string) (w : world) :
  code_taken code (rows w) = false ->
  redirect_url now code w = (NotFound, w).
Proof.
  intros H. apply first_none_not_taken in H.
  unfold redirect_url. now rewrite H.
Qed.

Lemma redirect_live (now : DateTime.t) (code : string) (w : world)
    (url : ShortURL) :
  Db.first (Db.filter_by_short_code code (rows w)) = Some url ->
  Db.is_expired now url = false ->
  redirect_url now code w =
  (Redirect (original_url url),
   mkWorld (Db.increment_visit url (rows w)) (cursor w)).
Proof.
  intros Hf He. unfold redirect_url. rewrite Hf.
  unfold Db.is_expired in He. destruct (expires_at url); [|reflexivity].
  now rewrite He.
Qed.

Lemma redirect_expired (now : DateTime.t) (code : string) (w : world)
    (url : ShortURL) :
  Db.first (Db.filter_by_short_code code (rows w)) = Some url ->
  Db.is_expired now url = true ->
  redirect_url now code w =
  (Gone, mkWorld (Db.delete url (rows w)) (cursor w)).
Proof.
  intros Hf He. unfold redirect_url. rewrite Hf.
  unfold Db.is_expired in He. destruct (expires_at url); [|discriminate].
  now rewrite He.
Qed.

(** A request that creates nothing keeps the table, filters it or
    increments a counter. *)
Lemma quiet_request_step (rq : request) (w w' : world) (resp : response) :
  creates_nothing rq = true ->
  handle rq w = Some (resp, w') ->
  rows w' = rows w \/
  (exists keep, rows w' = filter keep (rows w)) \/
  (exists url, rows w' = Db.increment_visit url (rows w)).
Proof.
  destruct rq as [fuel now ni url custom | now code | code | now]; simpl;
    intros Hq; [discriminate| | |].
  - unfold redirect_url.
    destruct (Db.first _) as [url|]; [|intros H; injection H as _ <-; auto].
    destruct (expires_at url) as [e|]; [destruct (e <? now)|];
      intros H; injection H as _ <-; simpl; right.
    + left. now exists (fun r => negb (id r =? id url)).
    + right. now exists url.
    + right. now exists url.
  - unfold url_stats. destruct (Db.first _);
      intros H; injection H as _ <-; auto.
  - unfold cleanup_expired_urls. intros H; injection H as _ <-; simpl.
    rewrite delete_all. right. left. eexists. reflexivity.
Qed.

(** A request that creates nothing brings no code into the table. *)
Lemma quiet_request_keeps_free (rq : request) (w w' : world)
    (resp : response) (code : string) :
  creates_nothing rq = true ->
  handle rq w = Some (resp, w') ->
  code_taken code (rows w) = false ->
  code_taken code (rows w') = false.
Proof.
  intros Hq H Hfree. rewrite code_taken_false in *.
  destruct (quiet_request_step _ _ _ _ Hq H) as [-> | [[keep ->] | [url ->]]].
  - assumption.
  - intros Hin. apply Hfree. apply in_map_iff in Hin as (r & <- & Hr).
    apply filter_In in Hr as [Hr _]. now apply in_map.
  - now rewrite increment_keeps_codes.
Qed.

Lemma quiet_requests_keep_free (rqs : list request) (code : string) :
  forall w,
    Forall (fun rq => creates_nothing rq = true) rqs ->
    code_taken code (rows w) = false ->
    exists w', run rqs w = Some w' /\ code_taken code (rows w') = false.
Proof.
  induction rqs as [|rq rqs IH]; intros w Hq Hfree; simpl; [eauto|].
  inversion Hq as [|? ? Hrq Hrest]; subst.
  destruct (handle rq w) as [[resp w1]|] eqn:E.
  - apply IH; [assumption|]. now apply (quiet_request_keeps_free rq w w1 resp).
  - destruct rq; simpl in *; discriminate.
Qed.

Lemma filter_length_split {A : Type} (p : A -> bool) (l : list A) :
  (List.length (filter (fun x => negb (p x)) l) + List.length (filter p l)
   = List.length l)%nat.
Proof.
  induction l as [|x l IH]; simpl; [reflexivity|].
  destruct (p x); simpl; lia.
Qed.

Lemma filter_after_filter {A : Type} (p q : A -> bool) (l : list A) :
  (forall x, In x l -> p x = true -> q x = true) ->
  filter p (filter q l) = filter p l.
Proof.
  induction l as [|x l IH]; simpl; intros H; [reflexivity|].
  destruct (q x) eqn:Eq; simpl.
  - rewrite IH; [reflexivity|]. intros y Hy. apply H. now right.
  - destruct (p x) eqn:Ep.
    + rewrite (H x (or_introl eq_refl) Ep) in Eq. discriminate.
    + apply IH. intros y Hy. apply H. now right.
Qed.

Lemma filter_none {A : Type} (p q : A -> bool) (l : list A) :
  (forall x, q x = true -> p x = false) -> filter p (filter q l) = [].
Proof.
  intros H. induction l as [|x l IH]; simpl; [reflexivity|].
  destruct (q x) eqn:Eq; simpl; [|exact IH].
  now rewrite (H x Eq).
Qed.

(** ** The properties of the specification *)

(** C1 (round trip).  A valid URL [U] submitted without a custom code is
    answered with a short code [C], provided the entropy yields a free
    code within the fuel and the expiration fits in a [datetime]: [C] is
    what [create_short_url_entry] returns, the answer carries
    [BASE_URL/C], and the row stored under [C] holds [U] with
    [visit_count] 0.  Resolving [C] no later than the expiration redirects
    to [U] and the row's [visit_count] is 1; resolving it a second time
    redirects to [U] and the [visit_count] is 2.  Nothing else in the row
    changes. *)
Theorem submit_then_resolve_twice (fuel k : nat)
    (now now_insert t1 t2 : DateTime.t) (U : string) (w : world) :
  validators_url U = true ->
  (k <= fuel)%nat ->
  code_taken (candidate (cursor w) k) (rows w) = false ->
  0 <= expiration_from now <= DateTime.max ->
  t1 <= expiration_from now ->
  t2 <= expiration_from now ->
  exists C w1 w2 w3 r0 r1 r2,
    create_short_url_entry fuel now now_insert U None w = Some (Ok C, w1) /\
    api_create_short_url fuel now now_insert U None w
    = Some (Created (BASE_URL config ++ "/" ++ C)%string U, w1) /\
    Db.first (Db.filter_by_short_code C (rows w1)) = Some r0 /\
    short_code r0 = C /\ original_url r0 = U /\ visit_count r0 = 0 /\
    redirect_url t1 C w1 = (Redirect U, w2) /\
    Db.first (Db.filter_by_short_code C (rows w2)) = Some r1 /\
    same_but_visited r0 r1 /\ visit_count r1 = 1 /\
    redirect_url t2 C w2 = (Redirect U, w3) /\
    Db.first (Db.filter_by_short_code C (rows w3)) = Some r2 /\
    same_but_visited r1 r2 /\ visit_count r2 = 2.
Proof.
  intros Hurl Hk Hfree Hrange Ht1 Ht2.
  destruct (create_generated fuel k now now_insert U None w
              (or_introl eq_refl) Hk Hfree Hrange)
    as (j & _ & Hjfree & Hcreate).
  set (C := candidate (cursor w) j) in *.
  set (r := new_row (rows w) U C now now_insert) in *.
  set (w1 := mkWorld (rows w ++ [r]) (cursor w + default_length * S j)) in *.
  assert (Hf1 : Db.first (Db.filter_by_short_code C (rows w1)) = Some r)
    by now apply first_after_add.
  assert (Hlive : forall t v, t <= expiration_from now ->
            Db.is_expired t (Db.set_visit_count v r) = false).
  { intros t v Ht. unfold Db.is_expired; simpl. apply Z.ltb_ge. exact Ht. }
  set (w2 := mkWorld (Db.increment_visit r (rows w1)) (cursor w1)).
  assert (Hf2 : Db.first (Db.filter_by_short_code C (rows w2))
                = Some (Db.set_visit_count 1 r))
    by exact (first_after_increment C (rows w1) r Hf1).
  set (r1 := Db.set_visit_count 1 r) in *.
  set (w3 := mkWorld (Db.increment_visit r1 (rows w2)) (cursor w2)).
  assert (Hf3 : Db.first (Db.filter_by_short_code C (rows w3))
                = Some (Db.set_visit_count 2 r))
    by exact (first_after_increment C (rows w2) r1 Hf2).
  exists C, w1, w2, w3, r, r1, (Db.set_visit_count 2 r).
  split; [exact Hcreate|].
  split.
  { unfold api_create_short_url, validate_url. rewrite Hurl. simpl.
    now rewrite Hcreate. }
  split; [exact Hf1|].
  split; [reflexivity|]. split; [reflexivity|]. split; [reflexivity|].
  split.
  { rewrite (redirect_live t1 C w1 r Hf1); [reflexivity|].
    exact (Hlive t1 0 Ht1). }
  split; [exact Hf2|].
  split; [unfold same_but_visited; simpl; repeat split; lia|].
  split; [reflexivity|].
  split.
  { rewrite (redirect_live t2 C w2 r1 Hf2); [reflexivity|].
    exact (Hlive t2 1 Ht2). }
  split; [exact Hf3|].
  split; [unfold same_but_visited; simpl; repeat split; lia|].
  reflexivity.
Qed.

(** C2 (uniqueness).  In every state the program reaches from an empty
    table, by submissions with a generated or a custom code, resolutions,
    statistics and sweeps, no two rows share a [short_code]. *)
Theorem short_codes_stay_unique (w : world) :
  reachable w -> NoDup (map short_code (rows w)).
Proof.
  intros H. now destruct (reachable_invariants w H) as [Hc _].
Qed.

(** A request that does not store a row under [code] leaves [code] free. *)
Lemma request_keeps_free (code : string) (rq : request) (w w1 : world)
    (resp : response) :
  handle rq w = Some (resp, w1) ->
  ~ stores_code code rq w ->
  code_taken code (rows w) = false ->
  code_taken code (rows w1) = false.
Proof.
  intros H Hno Hfree.
  destruct (creates_nothing rq) eqn:Eq;
    [now apply (quiet_request_keeps_free rq w w1 resp)|].
  destruct rq as [fuel now ni url custom | | |]; try discriminate.
  simpl in H, Hno.
  assert (Hcases : (exists su u, resp = Created su u) \/
                   (forall su u, resp <> Created su u)).
  { destruct resp; try (right; discriminate). left; eauto. }
  destruct Hcases as [(su & u & ->) | Hne].
  - apply api_created in H as (c & _ & _ & Hurl & H).
    assert (Hc : c <> code).
    { intros ->. apply Hno. split; [assumption|]. now exists w1. }
    apply create_ok in H as (pos & _ & ->). simpl.
    apply code_taken_false in Hfree. apply code_taken_false.
    rewrite map_app, in_app_iff. simpl. intros [Hin | [Heq | []]].
    + now apply Hfree.
    + now apply Hc.
  - now rewrite (api_not_created _ _ _ _ _ _ _ _ H Hne).
Qed.

Lemma run_without_keeps_free (code : string) (w w2 : world)
    (rqs : list request) :
  run_without code w rqs w2 ->
  code_taken code (rows w) = false ->
  code_taken code (rows w2) = false.
Proof.
  induction 1 as [w | w rq resp w1 rqs w2 H Hno _ IH]; intros Hfree;
    [assumption|].
  apply IH. now apply (request_keeps_free code rq w w1 resp).
Qed.

Lemma quiet_requests_run (code : string) (rqs : list request) :
  forall w,
    Forall (fun rq => creates_nothing rq = true) rqs ->
    exists w2, run rqs w = Some w2 /\ run_without code w rqs w2.
Proof.
  induction rqs as [|rq rqs IH]; intros w Hq; simpl.
  - exists w. split; [reflexivity | constructor].
  - inversion Hq as [|? ? Hrq Hrest]; subst.
    destruct (handle rq w) as [[resp w1]|] eqn:E.
    + destruct (IH w1 Hrest) as (w2 & Hrun & Hw).
      exists w2. split; [assumption|].
      apply (run_without_cons code w rq resp w1 rqs w2 E); [|assumption].
      destruct rq; simpl; try tauto; discriminate.
    + destruct rq; simpl in *; discriminate.
Qed.

(** C3 (expiry on read), as amended.  For a row [r] whose [expires_at] is
    set and before [now], in a table that meets its key constraints:
    resolving its code answers 410 and deletes exactly that row; from then
    on, after any requests none of which stores a row under that code
    again, a resolution of the code answers 404 and changes nothing.
    Requests that create nothing (resolutions, statistics, sweeps) are
    always such a sequence, and are all answered. *)
Theorem expired_row_is_gone_once (now : DateTime.t) (r : ShortURL)
    (e : DateTime.t) (w : world) :
  unique_codes (rows w) ->
  unique_ids (rows w) ->
  In r (rows w) ->
  expires_at r = Some e ->
  e < now ->
  exists w1,
    redirect_url now (short_code r) w = (Gone, w1) /\
    (forall x, In x (rows w1) <-> In x (rows w) /\ x <> r) /\
    (forall (later : list request) (w2 : world) (now' : DateTime.t),
       run_without (short_code r) w1 later w2 ->
       redirect_url now' (short_code r) w2 = (NotFound, w2)) /\
    forall (later : list request) (now' : DateTime.t),
      Forall (fun rq => creates_nothing rq = true) later ->
      exists w2,
        run later w1 = Some w2 /\
        run_without (short_code r) w1 later w2 /\
        redirect_url now' (short_code r) w2 = (NotFound, w2).
Proof.
  intros Hcodes Hids Hin He Hlt.
  pose proof (first_of_member (rows w) r Hcodes Hin) as Hf.
  assert (Hexp : Db.is_expired now r = true).
  { unfold Db.is_expired. rewrite He. now apply Z.ltb_lt. }
  exists (mkWorld (Db.delete r (rows w)) (cursor w)).
  split; [now apply redirect_expired|].
  split; [intros x; now apply delete_member|].
  assert (Hfree : code_taken (short_code r) (Db.delete r (rows w)) = false).
  { apply code_taken_false. intros Hc.
    apply in_map_iff in Hc as (x & Hx & Hxin).
    apply (delete_member (rows w) r x Hids Hin) in Hxin as [Hxin Hne].
    apply Hne. now apply (NoDup_map_eq short_code (rows w)). }
  assert (Hafter : forall later w2 now',
            run_without (short_code r)
                        (mkWorld (Db.delete r (rows w)) (cursor w)) later w2 ->
            redirect_url now' (short_code r) w2 = (NotFound, w2)).
  { intros later w2 now' Hrun. apply redirect_absent.
    exact (run_without_keeps_free _ _ _ _ Hrun Hfree). }
  split; [exact Hafter|].
  intros later now' Hquiet.
  destruct (quiet_requests_run (short_code r) later
              (mkWorld (Db.delete r (rows w)) (cursor w)) Hquiet)
    as (w2 & Hrun & Hwithout).
  exists w2. split; [exact Hrun|]. split; [exact Hwithout|].
  now apply (Hafter later).
Qed.

(** C4 (no write on error).  Whenever the submission is answered with
    anything but 201, the table is unchanged; a 400 answer carries one of
    the three messages InvalidURL, CodeInUse and InvalidCode. *)
Theorem rejected_submission_writes_nothing (fuel : nat)
    (now now_insert : DateTime.t) (url : string)
    (custom_code : option string) (w w' : world) (resp : response) :
  api_create_short_url fuel now now_insert url custom_code w
  = Some (resp, w') ->
  (forall short_url url', resp <> Created short_url url') ->
  rows w' = rows w /\
  (forall msg, resp = BadRequest msg ->
     msg = InvalidURL \/ msg = CodeInUse \/ msg = InvalidCode).
Proof.
  intros H Hne. split; [exact (api_not_created _ _ _ _ _ _ _ _ H Hne)|].
  intros msg ->. revert H. unfold api_create_short_url, validate_url.
  destruct (validators_url url); simpl.
  - destruct (create_short_url_entry _ _ _ _ _ _) as [[[c|ex] w1]|] eqn:E;
      try discriminate.
    destruct ex as [m| |]; try discriminate.
    intros H; injection H as <- <-.
    unfold create_short_url_entry in E.
    destruct (choose_short_code fuel custom_code w) as [[[c|ex] pos]|] eqn:Ec;
      try discriminate.
    + destruct (DateTime.add _ _) eqn:Ed.
      * destruct (Db.add _ _ _ _ _) eqn:Ea; [discriminate|].
        unfold Db.add in Ea.
        destruct (existsb _ _); [injection Ea as <-|]; discriminate.
      * unfold DateTime.add in Ed.
        destruct (_ && _); [|injection Ed as <-]; discriminate.
    + injection E as -> _.
      apply choose_raise in Ec
        as (code & _ & _ & [[_ Hm] | (_ & _ & Hm)]);
        injection Hm as ->; auto.
  - intros H; injection H as <- _. auto.
Qed.

(** C5 (sweep).  In a table with unique keys holding [N] rows whose
    [expires_at] is before [now] and [M] rows whose [expires_at] is after
    [now], the sweep reports [N], deletes exactly the [N] rows that are
    before [now], and leaves every other row, the [M] later ones among
    them, as it was. *)
Theorem sweep_deletes_the_expired (now : DateTime.t) (w : world) (N M : nat) :
  unique_ids (rows w) ->
  List.length (filter (Db.is_expired now) (rows w)) = N ->
  List.length (filter (expires_later now) (rows w)) = M ->
  exists tbl,
    cleanup_expired_urls now w = (Removed N, mkWorld tbl (cursor w)) /\
    tbl = filter (fun r => negb (Db.is_expired now r)) (rows w) /\
    filter (Db.is_expired now) tbl = [] /\
    filter (expires_later now) tbl = filter (expires_later now) (rows w) /\
    List.length (filter (expires_later now) tbl) = M /\
    (List.length tbl + N = List.length (rows w))%nat.
Proof.
  intros Hids HN HM.
  exists (filter (fun r => negb (Db.is_expired now r)) (rows w)).
  assert (Hlater : filter (expires_later now)
                     (filter (fun r => negb (Db.is_expired now r)) (rows w))
                   = filter (expires_later now) (rows w)).
  { apply filter_after_filter. intros x _.
    unfold expires_later, Db.is_expired.
    destruct (expires_at x) as [e|]; [|discriminate].
    intros H. apply Z.ltb_lt in H. apply negb_true_iff, Z.ltb_ge. lia. }
  split.
  { unfold cleanup_expired_urls. rewrite (delete_expired now (rows w) Hids).
    unfold Db.filter_expired. now rewrite HN. }
  split; [reflexivity|].
  split.
  { apply filter_none. intros x. now rewrite negb_true_iff. }
  split; [exact Hlater|].
  split; [now rewrite Hlater|].
  rewrite <- HN. apply filter_length_split.
Qed.

(** C6 (shape of a generated code).  A valid URL submitted without a
    custom code (none, or the empty string) is answered, under the
    conditions of C1, with a code [C]: it is what [create_short_url_entry]
    returns, the answer carries [BASE_URL/C] and a row is stored under
    [C].  [C] has exactly 6 characters, the default length of
    [generate_short_code], each of them one of the 62 characters of
    [chars] and so a lowercase letter, an uppercase letter or a digit. *)
Theorem generated_code_has_six_alphanumerics (fuel k : nat)
    (now now_insert : DateTime.t) (U : string)
    (custom_code : option string) (w : world) :
  validators_url U = true ->
  no_custom_code custom_code ->
  (k <= fuel)%nat ->
  code_taken (candidate (cursor w) k) (rows w) = false ->
  0 <= expiration_from now <= DateTime.max ->
  exists C w' r,
    create_short_url_entry fuel now now_insert U custom_code w
    = Some (Ok C, w') /\
    api_create_short_url fuel now now_insert U custom_code w
    = Some (Created (BASE_URL config ++ "/" ++ C)%string U, w') /\
    Db.first (Db.filter_by_short_code C (rows w')) = Some r /\
    short_code r = C /\
    String.length C = 6%nat /\
    String.length chars = 62%nat /\
    Forall (fun c => In c (list_ascii_of_string chars)
                     /\ alphanumeric c = true)
           (list_ascii_of_string C).
Proof.
  intros Hurl Hno Hk Hfree Hrange.
  destruct (create_generated fuel k now now_insert U custom_code w
              Hno Hk Hfree Hrange) as (j & _ & Hjfree & Hcreate).
  exists (candidate (cursor w) j).
  eexists. eexists.
  split; [exact Hcreate|].
  split.
  { unfold api_create_short_url, validate_url. rewrite Hurl. simpl.
    rewrite Hcreate. reflexivity. }
  split; [now apply first_after_add|].
  split; [reflexivity|].
  split; [apply join_choices_length|]. split; [reflexivity|].
  unfold candidate.
  pose proof (join_choices_chars default_length
                (cursor w + default_length * j)) as H.
  rewrite Forall_forall in *. intros c Hc. split; [now apply H|].
  now apply chars_alphanumeric, H.
Qed.

(** A string is outside the slug format exactly when it is empty or holds
    a character that is no letter, digit, hyphen or underscore. *)
Lemma not_slug_iff (code : string) :
  slug code = false <->
  code = EmptyString \/
  exists c, In c (list_ascii_of_string code) /\ slug_char c = false.
Proof.
  unfold slug. rewrite andb_false_iff, negb_false_iff, String.eqb_eq.
  split; (intros [H | H]; [now left | right]).
  - induction (list_ascii_of_string code) as [|a l IH]; simpl in *;
      [discriminate|].
    destruct (slug_char a) eqn:Ea; simpl in H.
    + destruct (IH H) as (c & Hc & Hbad). exists c. auto.
    + exists a. auto.
  - destruct H as (c & Hc & Hbad).
    destruct (forallb slug_char (list_ascii_of_string code)) eqn:E;
      [|reflexivity].
    rewrite forallb_forall in E. rewrite (E c Hc) in Hbad. discriminate.
Qed.

(** C8 (invalid custom code).  In every reachable state, a valid URL
    submitted with a non-empty custom code outside the slug format, that
    is, one holding a character that is no letter, digit, hyphen or
    underscore, is answered 400 with InvalidCode, and nothing changes. *)
Theorem malformed_custom_code_is_rejected (fuel : nat)
    (now now_insert : DateTime.t) (U code : string) (w : world) :
  reachable w ->
  validators_url U = true ->
  code <> EmptyString ->
  slug code = false ->
  api_create_short_url fuel now now_insert U (Some code) w
  = Some (BadRequest InvalidCode, w).
Proof.
  intros Hreach Hurl Hne Hbad.
  destruct (reachable_invariants w Hreach) as (_ & _ & Hslugs).
  assert (Htruthy : Py.truthy code = true).
  { destruct (Py.truthy code) eqn:E; [reflexivity|].
    now apply truthy_false in E. }
  assert (Hfree : code_taken code (rows w) = false).
  { apply code_taken_false. intros Hin.
    apply in_map_iff in Hin as (r & Hr & Hin).
    unfold slug_codes in Hslugs. rewrite Forall_forall in Hslugs.
    specialize (Hslugs r Hin). congruence. }
  unfold api_create_short_url, validate_url, create_short_url_entry,
    choose_short_code.
  rewrite Hurl, Htruthy, Hfree, Hbad. simpl. now destruct w.
Qed.

(** C9, as amended.  A successful submission appends one row whose
    [expires_at] is the clock read by [create_short_url_entry] plus
    [DEFAULT_EXPIRATION_DAYS] days; its [created_at] is the separate clock
    read that the column default makes at the insert. *)
Theorem expiry_is_submission_clock_plus_retention (fuel : nat)
    (now now_insert : DateTime.t) (url : string)
    (custom_code : option string) (w w' : world)
    (short_url url' : string) :
  api_create_short_url fuel now now_insert url custom_code w
  = Some (Created short_url url', w') ->
  exists r,
    rows w' = (rows w ++ [r])%list /\
    original_url r = url /\
    expires_at r
    = Some (now + DateTime.timedelta_days (DEFAULT_EXPIRATION_DAYS config)) /\
    created_at r = now_insert.
Proof.
  intros H. apply api_created in H as (c & _ & _ & _ & H).
  apply create_ok in H as (pos & _ & ->).
  exists (new_row (rows w) url c now now_insert). auto.
Qed.

(** C10 (empty custom code).  The empty string as custom code is handled
    exactly as no custom code: [create_short_url_entry] and the handler
    return what they return without one.  The answer is never
    InvalidCode, although the empty string is outside the slug format,
    and a 201 answer carries a generated code of 6 characters. *)
Theorem empty_custom_code_means_none (fuel : nat)
    (now now_insert : DateTime.t) (url : string) (w : world) :
  create_short_url_entry fuel now now_insert url (Some EmptyString) w
  = create_short_url_entry fuel now now_insert url None w /\
  api_create_short_url fuel now now_insert url (Some EmptyString) w
  = api_create_short_url fuel now now_insert url None w /\
  slug EmptyString = false /\
  forall resp w',
    api_create_short_url fuel now now_insert url (Some EmptyString) w
    = Some (resp, w') ->
    resp <> BadRequest InvalidCode /\
    forall short_url url',
      resp = Created short_url url' ->
      exists C p, short_url = short_url_of C /\
                  C = join_choices default_length p /\
                  String.length C = 6%nat.
Proof.
  split; [reflexivity|]. split; [reflexivity|]. split; [reflexivity|].
  intros resp w' H. split.
  - intros ->. revert H. unfold api_create_short_url, validate_url.
    destruct (validators_url url); simpl; [|discriminate].
    destruct (create_short_url_entry _ _ _ _ _ _) as [[[c|ex] w1]|] eqn:E;
      try discriminate.
    destruct ex as [m| |]; try discriminate.
    unfold create_short_url_entry in E.
    destruct (choose_short_code fuel (Some EmptyString) w)
      as [[[c|ex] pos]|] eqn:Ec; try discriminate.
    + destruct (DateTime.add _ _) eqn:Ed.
      * destruct (Db.add _ _ _ _ _) eqn:Ea; [discriminate|].
        unfold Db.add in Ea.
        destruct (existsb _ _); [injection Ea as <-|]; discriminate.
      * unfold DateTime.add in Ed.
        destruct (_ && _); [|injection Ed as <-]; discriminate.
    + apply choose_raise in Ec as (code & Hc & Ht & _).
      injection Hc as <-. discriminate.
  - intros su u ->. apply api_created in H as (c & -> & _ & _ & H).
    apply create_ok in H as (pos & Hc & _).
    apply choose_ok in Hc as [_ [(Hc & Ht & _) | (_ & p & ->)]].
    + injection Hc as <-. discriminate.
    + exists (join_choices default_length p), p.
      split; [reflexivity|]. split; [reflexivity|].
      apply join_choices_length.
Qed.

(** ** Further properties of the handlers *)

Lemma candidate_zero (pos : nat) :
  candidate pos 0 = join_choices default_length pos.
Proof. unfold candidate. f_equal. lia. Qed.

Lemma candidate_shift (pos k : nat) :
  candidate pos (S k) = candidate (pos + default_length) k.
Proof. unfold candidate. f_equal. lia. Qed.

(** What the loop returns is the first candidate that is free. *)
Lemma retry_first_free (tbl : table) (fuel : nat) :
  forall pos code pos',
    retry_while_taken fuel tbl (join_choices default_length pos)
                      (pos + default_length) = Some (code, pos') ->
    exists j, (j <= fuel)%nat /\
      code = candidate pos j /\
      pos' = (pos + default_length * S j)%nat /\
      code_taken code tbl = false /\
      forall i, (i < j)%nat -> code_taken (candidate pos i) tbl = true.
Proof.
  induction fuel as [|fuel IH]; intros pos code pos'; rewrite retry_unfold;
    destruct (code_taken (join_choices default_length pos) tbl) eqn:E;
    try discriminate.
  - intros H; injection H as <- <-. exists O. rewrite candidate_zero.
    repeat split; try assumption; lia.
  - intros H. apply IH in H as (j & Hj & -> & -> & Hfree & Hbefore).
    exists (S j). rewrite candidate_shift.
    split; [lia|]. split; [reflexivity|]. split; [lia|].
    split; [assumption|].
    intros [|i] Hi; [now rewrite candidate_zero|].
    rewrite candidate_shift. apply Hbefore. lia.
  - intros H; injection H as <- <-. exists O. rewrite candidate_zero.
    repeat split; try assumption; lia.
Qed.

Lemma retry_all_taken (tbl : table) (fuel : nat) :
  forall pos,
    (forall k, code_taken (candidate pos k) tbl = true) ->
    retry_while_taken fuel tbl (join_choices default_length pos)
                      (pos + default_length) = None.
Proof.
  induction fuel as [|fuel IH]; intros pos Hall; rewrite retry_unfold;
    rewrite <- candidate_zero, Hall; [reflexivity|].
  apply IH. intros k. rewrite <- candidate_shift. apply Hall.
Qed.

(** X1.  [generate_short_code(length)] returns exactly [length] characters,
    for any [length], zero included; it draws [length] numbers, and every
    character is one of the 62 of [chars], a letter or a digit. *)
Theorem generate_short_code_any_length (length pos : nat) :
  String.length (fst (generate_short_code length pos)) = length /\
  snd (generate_short_code length pos) = (pos + length)%nat /\
  Forall (fun c => In c (list_ascii_of_string chars) /\ alphanumeric c = true)
         (list_ascii_of_string (fst (generate_short_code length pos))).
Proof.
  simpl. split; [apply join_choices_length|]. split; [reflexivity|].
  pose proof (join_choices_chars length pos) as H.
  rewrite Forall_forall in *. intros c Hc. split; [now apply H|].
  now apply chars_alphanumeric, H.
Qed.

(** X2.  Without a custom code, the code [create_short_url_entry] returns
    is the first generated candidate that is free: every candidate before
    it was taken, six numbers were drawn per candidate tried, and the
    result is the same for every bound on the loop that lets it end. *)
Theorem generated_code_is_first_free (fuel : nat)
    (now now_insert : DateTime.t) (url : string)
    (custom_code : option string) (w w' : world) (code : string) :
  no_custom_code custom_code ->
  create_short_url_entry fuel now now_insert url custom_code w
  = Some (Ok code, w') ->
  exists j, (j <= fuel)%nat /\
    code = candidate (cursor w) j /\
    cursor w' = (cursor w + 6 * S j)%nat /\
    (forall i, (i < j)%nat ->
       code_taken (candidate (cursor w) i) (rows w) = true) /\
    forall fuel', (j <= fuel')%nat ->
      create_short_url_entry fuel' now now_insert url custom_code w
      = Some (Ok code, w').
Proof.
  intros Hno H.
  destruct (create_ok _ _ _ _ _ _ _ _ H) as (pos & Hc & Hw).
  rewrite (choose_without_custom _ _ _ Hno) in Hc.
  destruct (retry_while_taken fuel _ _ _) as [[c p]|] eqn:Hrun;
    [|discriminate].
  injection Hc as -> ->.
  destruct (retry_first_free _ _ _ _ _ Hrun)
    as (j & Hj & Hcode & Hpos & Hfree & Hbefore).
  exists j. split; [assumption|]. split; [assumption|].
  split; [rewrite Hw; exact Hpos|]. split; [assumption|].
  intros fuel' Hle. rewrite Hcode in Hfree.
  destruct (retry_finds (rows w) j fuel' (cursor w) Hle Hfree)
    as (j' & Hj' & Hfree' & Hrun').
  assert (j' = j) as ->.
  { destruct (Nat.eq_dec j' j) as [|Hne]; [assumption|].
    rewrite Hbefore in Hfree' by lia. discriminate. }
  revert H. unfold create_short_url_entry.
  rewrite !(choose_without_custom _ _ _ Hno), Hrun, Hrun', Hcode, Hpos.
  trivial.
Qed.

(** X3.  The loop has no exit of its own: when every candidate the entropy
    yields is taken, the submission of a valid URL without a custom code
    does not return, whatever the bound put on the loop. *)
Theorem no_free_candidate_no_answer (fuel : nat)
    (now now_insert : DateTime.t) (url : string)
    (custom_code : option string) (w : world) :
  validators_url url = true ->
  no_custom_code custom_code ->
  (forall k, code_taken (candidate (cursor w) k) (rows w) = true) ->
  create_short_url_entry fuel now now_insert url custom_code w = None /\
  api_create_short_url fuel now now_insert url custom_code w = None.
Proof.
  intros Hurl Hno Hall.
  assert (H : create_short_url_entry fuel now now_insert url custom_code w
              = None).
  { unfold create_short_url_entry.
    now rewrite (choose_without_custom _ _ _ Hno), retry_all_taken. }
  split; [exact H|].
  unfold api_create_short_url, validate_url. rewrite Hurl. simpl.
  now rewrite H.
Qed.

Lemma truthy_true (s : string) : s <> EmptyString -> Py.truthy s = true.
Proof.
  intros Hne. destruct (Py.truthy s) eqn:E; [reflexivity|].
  now apply truthy_false in E.
Qed.

Lemma member_code_taken (tbl : table) (r : ShortURL) :
  In r tbl -> code_taken (short_code r) tbl = true.
Proof.
  intros Hin. destruct (code_taken (short_code r) tbl) eqn:E; [reflexivity|].
  apply code_taken_false in E. exfalso; apply E. now apply in_map.
Qed.

(** A query answered from a table is answered the same once rows are
    appended. *)
Lemma first_before_appended (code : string) (tbl more : table) (r : ShortURL) :
  Db.first (Db.filter_by_short_code code tbl) = Some r ->
  Db.first (Db.filter_by_short_code code (tbl ++ more)) = Some r.
Proof.
  unfold Db.first, Db.filter_by_short_code. rewrite filter_app.
  destruct (filter _ tbl); simpl; [discriminate | trivial].
Qed.

(** X4.  A valid URL submitted with a custom code that is a non-empty slug
    and is free is stored under exactly that code, whatever the bound on
    the loop and without drawing any random number; resolving the code up
    to the expiration redirects to the URL. *)
Theorem custom_code_round_trip (fuel : nat) (now now_insert : DateTime.t)
    (U code : string) (w : world) :
  validators_url U = true ->
  code <> EmptyString ->
  slug code = true ->
  code_taken code (rows w) = false ->
  0 <= expiration_from now <= DateTime.max ->
  exists w',
    api_create_short_url fuel now now_insert U (Some code) w
    = Some (Created (short_url_of code) U, w') /\
    cursor w' = cursor w /\
    rows w' = (rows w ++ [new_row (rows w) U code now now_insert])%list /\
    forall t, t <= expiration_from now ->
      fst (redirect_url t code w') = Redirect U.
Proof.
  intros Hurl Hne Hslug Hfree Hrange.
  exists (mkWorld (rows w ++ [new_row (rows w) U code now now_insert])
                  (cursor w)).
  split.
  { unfold api_create_short_url, validate_url, create_short_url_entry,
      choose_short_code.
    rewrite Hurl, (truthy_true _ Hne), Hfree, Hslug. simpl.
    now rewrite (datetime_add_ok _ _ Hrange), (add_free _ _ _ _ _ Hfree). }
  split; [reflexivity|]. split; [reflexivity|].
  intros t Ht.
  rewrite (redirect_live t code _ (new_row (rows w) U code now now_insert)).
  - reflexivity.
  - now apply first_after_add.
  - unfold Db.is_expired; simpl. now apply Z.ltb_ge.
Qed.

(** X5.  A custom code that some row of the table already carries is
    refused with CodeInUse and nothing is written.  The test comes before
    the format check and does not look at the expiration: it holds for a
    code outside the slug format and for a row that has expired but was not
    deleted yet. *)
Theorem taken_custom_code_is_refused (fuel : nat)
    (now now_insert : DateTime.t) (U : string) (w : world) (r : ShortURL) :
  validators_url U = true ->
  In r (rows w) ->
  short_code r <> EmptyString ->
  api_create_short_url fuel now now_insert U (Some (short_code r)) w
  = Some (BadRequest CodeInUse, w).
Proof.
  intros Hurl Hin Hne.
  unfold api_create_short_url, validate_url, create_short_url_entry,
    choose_short_code.
  rewrite Hurl, (truthy_true _ Hne), (member_code_taken _ _ Hin). simpl.
  now destruct w.
Qed.

(** X6.  A successful submission only appends: every code that resolved to
    a row before resolves to the same row after, and the rows that were
    there are still there, in the same order. *)
Theorem submission_keeps_existing_links (fuel : nat)
    (now now_insert : DateTime.t) (url : string)
    (custom_code : option string) (w w' : world)
    (short_url url' : string) :
  api_create_short_url fuel now now_insert url custom_code w
  = Some (Created short_url url', w') ->
  firstn (List.length (rows w)) (rows w') = rows w /\
  forall code r,
    Db.first (Db.filter_by_short_code code (rows w)) = Some r ->
    Db.first (Db.filter_by_short_code code (rows w')) = Some r.
Proof.
  intros H. apply api_created in H as (c & _ & _ & _ & H).
  apply create_ok in H as (pos & _ & ->). simpl. split.
  - rewrite firstn_app, Nat.sub_diag, firstn_all. simpl. apply app_nil_r.
  - intros code r. apply first_before_appended.
Qed.

(** The three outcomes of [redirect_url]. *)
Lemma redirect_cases (now : DateTime.t) (code : string) (w : world) :
  (code_taken code (rows w) = false /\ redirect_url now code w = (NotFound, w))
  \/ exists url,
       Db.first (Db.filter_by_short_code code (rows w)) = Some url /\
       In url (rows w) /\ short_code url = code /\
       ((Db.is_expired now url = true /\
         redirect_url now code w
         = (Gone, mkWorld (Db.delete url (rows w)) (cursor w)))
        \/ (Db.is_expired now url = false /\
            redirect_url now code w
            = (Redirect (original_url url),
               mkWorld (Db.increment_visit url (rows w)) (cursor w)))).
Proof.
  destruct (Db.first (Db.filter_by_short_code code (rows w))) as [url|] eqn:E.
  - right. exists url. destruct (first_in _ _ _ E) as [Hin Hc].
    split; [reflexivity|]. split; [assumption|]. split; [assumption|].
    destruct (Db.is_expired now url) eqn:Ex.
    + left. split; [reflexivity|]. now apply redirect_expired.
    + right. split; [reflexivity|]. now apply redirect_live.
  - left. apply first_none_not_taken in E. split; [assumption|].
    now apply redirect_absent.
Qed.

Lemma same_but_visited_refl (r : ShortURL) : same_but_visited r r.
Proof. unfold same_but_visited. repeat split; lia. Qed.

Lemma increment_history (tbl : table) (url r' : ShortURL) :
  unique_ids tbl -> In url tbl ->
  In r' (Db.increment_visit url tbl) ->
  exists r, In r tbl /\ same_but_visited r r'.
Proof.
  intros Hids Hurl Hin. unfold Db.increment_visit in Hin.
  apply in_map_iff in Hin as (x & <- & Hx). exists x. split; [assumption|].
  destruct (id x =? id url) eqn:E; [|apply same_but_visited_refl].
  apply Z.eqb_eq in E.
  assert (x = url) as -> by now apply (NoDup_map_eq id tbl).
  unfold same_but_visited; simpl. repeat split; lia.
Qed.

(** Where a row of the table comes from, after a request. *)
Lemma row_history (rq : request) (w w' : world) (resp : response)
    (r' : ShortURL) :
  unique_ids (rows w) ->
  handle rq w = Some (resp, w') ->
  In r' (rows w') ->
  (exists r, In r (rows w) /\ same_but_visited r r') \/
  (exists url code now now_insert,
     r' = new_row (rows w) url code now now_insert /\
     code_taken code (rows w) = false).
Proof.
  intros Hids H Hin.
  assert (Hold : In r' (rows w) ->
                 exists r, In r (rows w) /\ same_but_visited r r').
  { intros Hr. exists r'. split; [assumption | apply same_but_visited_refl]. }
  destruct rq as [fuel now ni url custom | now code | code | now];
    simpl in H.
  - assert (Hcases : (exists su u, resp = Created su u) \/
                     (forall su u, resp <> Created su u)).
    { destruct resp; try (right; discriminate). left; eauto. }
    destruct Hcases as [(su & u & ->) | Hne].
    + apply api_created in H as (c & _ & _ & _ & H).
      apply create_ok in H as (pos & Hc & ->). simpl in Hin.
      apply choose_ok in Hc as [Hfree _].
      apply in_app_iff in Hin as [Hin | [<- | []]]; [left; auto|].
      right. exists url, c, now, ni. auto.
    + rewrite (api_not_created _ _ _ _ _ _ _ _ H Hne) in Hin. left; auto.
  - injection H as Hr.
    destruct (redirect_cases now code w)
      as [[_ E] | (url & _ & Hurl & _ & [[_ E] | [_ E]])];
      rewrite E in Hr; injection Hr as _ <-; simpl in Hin; left.
    + auto.
    + apply filter_In in Hin as [Hin _]. auto.
    + now apply (increment_history (rows w) url).
  - unfold url_stats in H. destruct (Db.first _);
      injection H as _ <-; left; auto.
  - unfold cleanup_expired_urls in H. injection H as _ <-. simpl in Hin.
    rewrite delete_all in Hin. apply filter_In in Hin as [Hin _]. left; auto.
Qed.

(** X7.  No request rewrites a stored link.  After any request, a row of
    the table either was there before, with the same key, URL, code,
    creation time and expiration and a [visit_count] that is not smaller,
    or is the row just created, with [visit_count] 0 and a key and a code
    no row had. *)
Theorem requests_only_raise_visit_count (rq : request) (w w' : world)
    (resp : response) (r' : ShortURL) :
  unique_ids (rows w) ->
  handle rq w = Some (resp, w') ->
  In r' (rows w') ->
  (exists r, In r (rows w) /\ same_but_visited r r') \/
  (visit_count r' = 0 /\
   ~ In (id r') (map id (rows w)) /\
   ~ In (short_code r') (map short_code (rows w))).
Proof.
  intros Hids H Hin.
  destruct (row_history rq w w' resp r' Hids H Hin)
    as [Hold | (url & code & now & ni & -> & Hfree)]; [now left|].
  right. simpl. split; [reflexivity|]. split; [apply next_id_fresh|].
  now apply code_taken_false.
Qed.

(** X8.  In every reachable state the keys of the rows are distinct, no
    [visit_count] is negative and every row has an expiration: the branch
    of [redirect_url] for a missing [expires_at] is never taken on a row
    the program created. *)
Theorem reachable_rows_are_well_formed (w : world) :
  reachable w ->
  NoDup (map id (rows w)) /\
  Forall (fun r => 0 <= visit_count r /\ exists e, expires_at r = Some e)
         (rows w).
Proof.
  intros Hreach. split.
  { now destruct (reachable_invariants w Hreach) as (_ & ? & _). }
  induction Hreach as [pos | w rq resp w' Hreach IH H]; simpl; [constructor|].
  destruct (reachable_invariants w Hreach) as (_ & Hids & _).
  rewrite Forall_forall in *. intros r' Hin.
  destruct (row_history rq w w' resp r' Hids H Hin)
    as [(r & Hr & Hsame) | (url & code & now & ni & -> & _)].
  - destruct (IH r Hr) as [Hv [e He]].
    destruct Hsame as (_ & _ & _ & _ & Hexp & Hle).
    split; [lia|]. exists e. congruence.
  - simpl. split; [lia|]. eauto.
Qed.

Lemma is_expired_iff (now : DateTime.t) (r : ShortURL) :
  Db.is_expired now r = true <-> exists e, expires_at r = Some e /\ e < now.
Proof.
  unfold Db.is_expired. destruct (expires_at r) as [e|]; split.
  - intros H. exists e. split; [reflexivity | now apply Z.ltb_lt].
  - intros (e' & He & Hlt). injection He as <-. now apply Z.ltb_lt.
  - discriminate.
  - intros (e' & He & _). discriminate.
Qed.

(** Expired at [t] is expired at every later time. *)
Lemma is_expired_later (t now : DateTime.t) (r : ShortURL) :
  t <= now -> Db.is_expired t r = true -> Db.is_expired now r = true.
Proof.
  rewrite !is_expired_iff. intros Hle (e & He & Hlt). exists e. split; [auto|lia].
Qed.

(** Resolutions of a row that is not expired, in the table. *)
Lemma redirect_each_live (ts : list DateTime.t) (code : string) :
  forall (w : world) (r : ShortURL),
    Db.first (Db.filter_by_short_code code (rows w)) = Some r ->
    Forall (fun t => Db.is_expired t r = false) ts ->
    exists w',
      redirect_each ts code w
      = (repeat (Redirect (original_url r)) (List.length ts), w') /\
      Db.first (Db.filter_by_short_code code (rows w'))
      = Some (Db.set_visit_count
                (visit_count r + Z.of_nat (List.length ts)) r) /\
      List.length (rows w') = List.length (rows w).
Proof.
  induction ts as [|t ts IH]; intros w r Hf Hlive.
  - exists w. split; [reflexivity|]. split; [|reflexivity].
    rewrite Hf. f_equal. destruct r; unfold Db.set_visit_count; simpl.
    f_equal. lia.
  - inversion Hlive as [|? ? Ht Hrest]; subst.
    pose proof (first_after_increment code (rows w) r Hf) as Hf1.
    destruct (IH (mkWorld (Db.increment_visit r (rows w)) (cursor w))
                 (Db.set_visit_count (visit_count r + 1) r) Hf1)
      as (w' & Hrun & Hf' & Hlen).
    { eapply Forall_impl; [|exact Hrest]. intros a Ha. exact Ha. }
    exists w'. split; [|split].
    + cbn [redirect_each]. rewrite (redirect_live t code w r Hf Ht), Hrun.
      reflexivity.
    + rewrite Hf'. f_equal. unfold Db.set_visit_count; simpl. f_equal. lia.
    + rewrite Hlen. simpl. unfold Db.increment_visit. apply length_map.
Qed.

(** X9.  Resolutions are counted one by one: resolving a code [n] times,
    each time before the row expires, redirects [n] times to the URL of the
    row; the row the code selects afterwards is the same in every column
    but [visit_count], which is higher by exactly [n].  No row is added or
    removed.  The count is one the INTEGER column can hold. *)
Theorem resolutions_are_counted (ts : list DateTime.t) (code : string)
    (w : world) (r : ShortURL) :
  Db.first (Db.filter_by_short_code code (rows w)) = Some r ->
  Forall (fun t => Db.is_expired t r = false) ts ->
  visit_count r + Z.of_nat (List.length ts) <= sqlite_max_integer ->
  exists w' r',
    redirect_each ts code w
    = (repeat (Redirect (original_url r)) (List.length ts), w') /\
    Db.first (Db.filter_by_short_code code (rows w')) = Some r' /\
    same_but_visited r r' /\
    visit_count r' = visit_count r + Z.of_nat (List.length ts) /\
    List.length (rows w') = List.length (rows w).
Proof.
  intros Hf Hlive _.
  destruct (redirect_each_live ts code w r Hf Hlive)
    as (w' & Hrun & Hf' & Hlen).
  exists w', (Db.set_visit_count
                (visit_count r + Z.of_nat (List.length ts)) r).
  split; [exact Hrun|]. split; [exact Hf'|].
  split; [unfold same_but_visited; simpl; repeat split; lia|].
  split; [reflexivity | exact Hlen].
Qed.

Lemma delete_keeps_other_codes (tbl : table) (url : ShortURL) (other : string) :
  unique_ids tbl -> In url tbl -> other <> short_code url ->
  Db.filter_by_short_code other (Db.delete url tbl)
  = Db.filter_by_short_code other tbl.
Proof.
  intros Hids Hin Hne. unfold Db.filter_by_short_code, Db.delete.
  apply filter_after_filter. intros x Hx Hc. apply String.eqb_eq in Hc.
  apply negb_true_iff, Z.eqb_neq. intros Hid.
  assert (x = url) by now apply (NoDup_map_eq id tbl).
  congruence.
Qed.

Lemma increment_keeps_other_codes (tbl : table) (url : ShortURL)
    (other : string) :
  unique_ids tbl -> In url tbl -> other <> short_code url ->
  Db.filter_by_short_code other (Db.increment_visit url tbl)
  = Db.filter_by_short_code other tbl.
Proof.
  intros Hids Hin Hne.
  assert (H : forall x, In x tbl -> id x = id url -> short_code x <> other).
  { intros x Hx Hid.
    assert (x = url) by now apply (NoDup_map_eq id tbl).
    congruence. }
  clear Hids Hin Hne. unfold Db.filter_by_short_code, Db.increment_visit.
  induction tbl as [|x tbl IH]; simpl; [reflexivity|].
  assert (IH' : forall y, In y tbl -> id y = id url -> short_code y <> other)
    by (intros y Hy; apply H; now right).
  destruct (id x =? id url) eqn:E; simpl.
  - apply Z.eqb_eq in E. apply (H x (or_introl eq_refl)) in E.
    apply String.eqb_neq in E. rewrite E. now apply IH.
  - rewrite (IH IH'). reflexivity.
Qed.

(** X10.  Resolving a code touches no other code: whatever the outcome,
    the rows every other code selects are the same after as before,
    [visit_count] included. *)
Theorem resolution_leaves_other_codes (now : DateTime.t)
    (code other : string) (w : world) :
  unique_ids (rows w) ->
  other <> code ->
  Db.filter_by_short_code other (rows (snd (redirect_url now code w)))
  = Db.filter_by_short_code other (rows w).
Proof.
  intros Hids Hne.
  destruct (redirect_cases now code w)
    as [[_ E] | (url & _ & Hurl & Hc & [[_ E] | [_ E]])];
    rewrite E; simpl; [reflexivity| |]; subst code.
  - now apply delete_keeps_other_codes.
  - now apply increment_keeps_other_codes.
Qed.

(** X11.  Resolution and sweep use the same test.  For a row of a table
    that meets its key constraints, resolving its code at [now] answers
    410 exactly when [expires_at] is set and strictly before [now], and
    that is exactly when the sweep at [now] deletes the row; otherwise, a
    row expiring at [now] itself included, the resolution redirects. *)
Theorem resolution_and_sweep_agree (now : DateTime.t) (w : world)
    (r : ShortURL) :
  unique_codes (rows w) ->
  unique_ids (rows w) ->
  In r (rows w) ->
  (fst (redirect_url now (short_code r) w) = Gone
   <-> exists e, expires_at r = Some e /\ e < now) /\
  (~ In r (rows (snd (cleanup_expired_urls now w)))
   <-> exists e, expires_at r = Some e /\ e < now) /\
  (In r (rows (snd (cleanup_expired_urls now w)))
   <-> fst (redirect_url now (short_code r) w) = Redirect (original_url r)).
Proof.
  intros Hcodes Hids Hin.
  pose proof (first_of_member (rows w) r Hcodes Hin) as Hf.
  assert (Hsweep : In r (rows (snd (cleanup_expired_urls now w)))
                   <-> Db.is_expired now r = false).
  { simpl. rewrite (delete_expired now (rows w) Hids), filter_In.
    rewrite negb_true_iff. tauto. }
  rewrite <- is_expired_iff.
  destruct (Db.is_expired now r) eqn:E.
  - rewrite (redirect_expired now _ w r Hf E). simpl.
    split; [tauto|]. split.
    + split; [reflexivity|]. intros _ H. apply Hsweep in H. discriminate.
    + split; [intros H; apply Hsweep in H|]; discriminate.
  - rewrite (redirect_live now _ w r Hf E). simpl.
    split; [split; discriminate|]. split.
    + split; [|discriminate]. intros H. exfalso. apply H. now apply Hsweep.
    + split; [reflexivity|]. intros _. now apply Hsweep.
Qed.

(** X12.  After a sweep at [now], a sweep at [now] or earlier finds
    nothing to delete and changes nothing, and no resolution at [now] or
    earlier answers 410. *)
Theorem nothing_expired_after_sweep (now t : DateTime.t) (w : world) :
  unique_ids (rows w) ->
  t <= now ->
  cleanup_expired_urls t (snd (cleanup_expired_urls now w))
  = (Removed 0, snd (cleanup_expired_urls now w)) /\
  forall code,
    fst (redirect_url t code (snd (cleanup_expired_urls now w))) <> Gone.
Proof.
  intros Hids Hle. simpl. rewrite (delete_expired now (rows w) Hids).
  set (kept := filter (fun r => negb (Db.is_expired now r)) (rows w)).
  assert (Hkept : forall r, In r kept -> Db.is_expired t r = false).
  { intros r Hr. apply filter_In in Hr as [_ Hr].
    apply negb_true_iff in Hr.
    destruct (Db.is_expired t r) eqn:E; [|reflexivity].
    apply (is_expired_later t now r Hle) in E. congruence. }
  assert (Hnone : Db.filter_expired t kept = []).
  { unfold Db.filter_expired.
    destruct (filter (Db.is_expired t) kept) as [|x l] eqn:E; [reflexivity|].
    assert (Hx : In x (filter (Db.is_expired t) kept)) by (rewrite E; now left).
    apply filter_In in Hx as [Hx Hexp]. rewrite (Hkept x Hx) in Hexp.
    discriminate. }
  split.
  - unfold cleanup_expired_urls. simpl. rewrite Hnone. reflexivity.
  - intros code.
    destruct (redirect_cases t code (mkWorld kept (cursor w)))
      as [[_ E] | (url & _ & Hurl & _ & [[Hexp _] | [_ E]])].
    + rewrite E. discriminate.
    + simpl in Hurl. rewrite (Hkept url Hurl) in Hexp. discriminate.
    + rewrite E. discriminate.
Qed.

Lemma deleted_code_is_free (tbl : table) (r : ShortURL) :
  unique_codes tbl -> unique_ids tbl -> In r tbl ->
  code_taken (short_code r) (Db.delete r tbl) = false.
Proof.
  intros Hcodes Hids Hin. apply code_taken_false. intros Hc.
  apply in_map_iff in Hc as (x & Hx & Hxin).
  apply (delete_member tbl r x Hids Hin) in Hxin as [Hxin Hne].
  apply Hne. now apply (NoDup_map_eq short_code tbl).
Qed.

Lemma free_code_selects_nothing (code : string) (tbl : table) :
  code_taken code tbl = false -> Db.filter_by_short_code code tbl = [].
Proof.
  intros H. apply first_none_not_taken in H. unfold Db.first in H.
  destruct (Db.filter_by_short_code code tbl); [reflexivity | discriminate].
Qed.

Lemma filter_swap {A : Type} (p q : A -> bool) (l : list A) :
  filter p (filter q l) = filter q (filter p l).
Proof.
  induction l as [|x l IH]; simpl; [reflexivity|].
  destruct (q x) eqn:Eq, (p x) eqn:Ep; simpl;
    rewrite ?Eq, ?Ep, IH; reflexivity.
Qed.

(** X13.  The statistics page reads and does nothing else: the table is
    unchanged, no visit is counted and the expiration is not looked at.
    It shows the row the code selects, expired or not, and answers 404
    exactly when a resolution of the code would. *)
Theorem stats_only_read (now : DateTime.t) (code : string) (w : world) :
  snd (url_stats code w) = w /\
  (fst (url_stats code w) = NotFound
   <-> fst (redirect_url now code w) = NotFound) /\
  forall url,
    Db.first (Db.filter_by_short_code code (rows w)) = Some url ->
    fst (url_stats code w) = StatsPage url (short_url_of code) /\
    (Db.is_expired now url = true ->
     fst (redirect_url now code w) = Gone).
Proof.
  unfold url_stats.
  destruct (redirect_cases now code w)
    as [[Hfree E] | (url & Hf & _ & Hc & Hcase)].
  - apply first_none_not_taken in Hfree. rewrite Hfree, E. simpl.
    split; [reflexivity|]. split; [split; reflexivity|]. discriminate.
  - rewrite Hf. simpl. split; [reflexivity|]. split.
    + destruct Hcase as [[_ E] | [_ E]]; rewrite E; simpl;
        split; discriminate.
    + intros url' H; injection H as <-. rewrite Hc. split; [reflexivity|].
      intros Hexp. destruct Hcase as [[_ E] | [Hlive _]];
        [now rewrite E | congruence].
Qed.

(** X14.  The code of an expired row is in use until the row is deleted
    and free from then on.  Submitted as custom code while the expired row
    is still stored, it is refused with CodeInUse; once a resolution has
    answered 410 and deleted the row, the same submission succeeds and the
    code resolves to the new URL. *)
Theorem expired_code_can_be_claimed_again (fuel : nat)
    (now now2 now_insert : DateTime.t) (U : string) (w : world)
    (r : ShortURL) :
  unique_codes (rows w) ->
  unique_ids (rows w) ->
  In r (rows w) ->
  Db.is_expired now r = true ->
  validators_url U = true ->
  short_code r <> EmptyString ->
  slug (short_code r) = true ->
  0 <= expiration_from now2 <= DateTime.max ->
  api_create_short_url fuel now2 now_insert U (Some (short_code r)) w
  = Some (BadRequest CodeInUse, w) /\
  exists w1 w2,
    redirect_url now (short_code r) w = (Gone, w1) /\
    api_create_short_url fuel now2 now_insert U (Some (short_code r)) w1
    = Some (Created (short_url_of (short_code r)) U, w2) /\
    forall t, t <= expiration_from now2 ->
      fst (redirect_url t (short_code r) w2) = Redirect U.
Proof.
  intros Hcodes Hids Hin Hexp Hurl Hne Hslug Hrange.
  pose proof (truthy_true _ Hne) as Htruthy.
  split.
  { unfold api_create_short_url, validate_url, create_short_url_entry,
      choose_short_code.
    rewrite Hurl, Htruthy, (member_code_taken _ _ Hin). simpl.
    now destruct w. }
  pose proof (deleted_code_is_free (rows w) r Hcodes Hids Hin) as Hfree.
  set (tbl1 := Db.delete r (rows w)) in *.
  set (r2 := new_row tbl1 U (short_code r) now2 now_insert).
  exists (mkWorld tbl1 (cursor w)), (mkWorld (tbl1 ++ [r2]) (cursor w)).
  split.
  { apply redirect_expired; [|assumption]. now apply first_of_member. }
  split.
  { unfold api_create_short_url, validate_url, create_short_url_entry,
      choose_short_code. simpl rows. simpl cursor.
    rewrite Hurl, Htruthy, Hfree, Hslug. simpl.
    now rewrite (datetime_add_ok _ _ Hrange), (add_free _ _ _ _ _ Hfree). }
  intros t Ht.
  rewrite (redirect_live t (short_code r) _ r2).
  - reflexivity.
  - now apply first_after_add.
  - unfold Db.is_expired; simpl. now apply Z.ltb_ge.
Qed.

(** X15.  The HTML form and the JSON API are the same submission.  A POST
    of the form with the field [url] answers the result page exactly when
    the API answers 201, with the same short URL, and the index page with
    the error message exactly when the API answers 400 with that message;
    the table and the cursor end up the same.  A form without the field
    [url] is answered 400 and writes nothing. *)
Theorem form_and_api_agree (fuel : nat) (now now_insert : DateTime.t)
    (url : string) (custom_code : option string) (w : world) :
  index POST fuel now now_insert (mkForm (Some url) custom_code) w
  = match api_create_short_url fuel now now_insert url custom_code w with
    | None => None
    | Some (Created short_url url', w') => Some (ResultPage short_url url', w')
    | Some (BadRequest msg, w') => Some (IndexPage (Some msg), w')
    | Some (_, w') => Some (Crash, w')
    end /\
  index POST fuel now now_insert (mkForm None custom_code) w
  = Some (ErrorPage 400, w).
Proof.
  split; [|reflexivity].
  unfold index, create_short_url, api_create_short_url, validate_url. simpl.
  destruct (validators_url url); simpl; [|reflexivity].
  destruct (create_short_url_entry _ _ _ _ _ _) as [[[c|[m| |]] w1]|];
    reflexivity.
Qed.

(** X16.  A stored link lives exactly until its expiration.  After a
    successful submission at [now], a sweep at a time up to the expiration
    keeps the new row, and the code still resolves to the URL up to the
    expiration; a sweep after the expiration deletes the row, and the code
    is not found any more. *)
Theorem new_link_lives_until_expiry (fuel : nat)
    (now now_insert t : DateTime.t) (url : string)
    (custom_code : option string) (w w1 : world)
    (short_url url' : string) :
  unique_ids (rows w) ->
  api_create_short_url fuel now now_insert url custom_code w
  = Some (Created short_url url', w1) ->
  exists C,
    short_url = short_url_of C /\
    (t <= expiration_from now ->
     forall t', t' <= expiration_from now ->
       fst (redirect_url t' C (snd (cleanup_expired_urls t w1)))
       = Redirect url) /\
    (expiration_from now < t ->
     forall t',
       fst (redirect_url t' C (snd (cleanup_expired_urls t w1))) = NotFound).
Proof.
  intros Hids H. apply api_created in H as (C & -> & _ & _ & H).
  apply create_ok in H as (pos & Hc & ->).
  apply choose_ok in Hc as [Hfree _].
  exists C. split; [reflexivity|].
  set (r := new_row (rows w) url C now now_insert).
  assert (Hids1 : unique_ids (rows w ++ [r])).
  { unfold unique_ids. rewrite map_app. apply NoDup_snoc; [assumption|].
    apply next_id_fresh. }
  assert (Hsel : forall keep,
            Db.filter_by_short_code C (filter keep (rows w ++ [r]))
            = filter keep [r]).
  { intros keep. unfold Db.filter_by_short_code. rewrite filter_swap.
    f_equal. rewrite filter_app.
    fold (Db.filter_by_short_code C (rows w)).
    rewrite (free_code_selects_nothing _ _ Hfree). simpl.
    now rewrite String.eqb_refl. }
  assert (Hrows : forall t',
            rows (snd (cleanup_expired_urls t'
                         (mkWorld (rows w ++ [r]) pos)))
            = filter (fun x => negb (Db.is_expired t' x)) (rows w ++ [r])).
  { intros t'. simpl. now rewrite (delete_expired t' _ Hids1). }
  split.
  - intros Ht t' Ht'.
    assert (Hlive : forall s, s <= expiration_from now ->
                      Db.is_expired s r = false).
    { intros s Hs. unfold Db.is_expired; simpl. now apply Z.ltb_ge. }
    rewrite (redirect_live t' C _ r); [reflexivity| |now apply Hlive].
    rewrite Hrows, Hsel. simpl. now rewrite (Hlive t Ht).
  - intros Ht t'. rewrite redirect_absent; [reflexivity|].
    apply first_none_not_taken. rewrite Hrows, Hsel. simpl.
    assert (Hexp : Db.is_expired t r = true).
    { unfold Db.is_expired; simpl. now apply Z.ltb_lt. }
    now rewrite Hexp.
Qed.

End Program.

(** ** The statements at concrete inputs *)

Import Sample.

(** C7 (length of the stored code).  The program stores a custom code of 17
    characters: [create_short_url_entry] checks the slug format and the
    uniqueness of a custom code, not its length, and the insert does not
    check the declared [String(16)]. *)
Theorem custom_code_of_17_characters_is_stored :
  slug seventeen = true /\
  exists w',
    api_create_short_url zeros has_scheme app_config 0 new_year a_moment_later
                         page (Some seventeen) empty
    = Some (Created (short_url_of app_config seventeen) page, w') /\
    exists r, In r (rows w') /\ short_code r = seventeen /\
              String.length (short_code r) = 17%nat.
Proof.
  split; [reflexivity|].
  eexists. split; [vm_compute; reflexivity|].
  eexists. split; [left; reflexivity|]. split; reflexivity.
Qed.

(** C9, as stated, fails: a row created by a submission whose two clock
    reads are 250 microseconds apart has an [expires_at] that is not its
    [created_at] plus 30 days. *)
Lemma expiry_is_not_created_at_plus_retention :
  exists w' r,
    api_create_short_url zeros has_scheme app_config 0 new_year a_moment_later
                         page None empty
    = Some (Created (short_url_of app_config "aaaaaa") page, w') /\
    In r (rows w') /\
    expires_at r
    <> Some (created_at r
             + DateTime.timedelta_days (DEFAULT_EXPIRATION_DAYS app_config)).
Proof.
  exists after_one. eexists. split; [vm_compute; reflexivity|].
  split; [left; reflexivity|]. vm_compute. discriminate.
Qed.

Lemma submit_then_resolve_twice_witness :
  exists C w1 w2 w3 r0 r1 r2,
    create_short_url_entry counting app_config 1 1000 1001 page None one_row
    = Some (Ok C, w1) /\
    api_create_short_url counting has_scheme app_config 1 1000 1001
                         page None one_row
    = Some (Created (BASE_URL app_config ++ "/" ++ C)%string page, w1) /\
    Db.first (Db.filter_by_short_code C (rows w1)) = Some r0 /\
    short_code r0 = C /\ original_url r0 = page /\ visit_count r0 = 0 /\
    redirect_url 2000 C w1 = (Redirect page, w2) /\
    Db.first (Db.filter_by_short_code C (rows w2)) = Some r1 /\
    same_but_visited r0 r1 /\ visit_count r1 = 1 /\
    redirect_url 3000 C w2 = (Redirect page, w3) /\
    Db.first (Db.filter_by_short_code C (rows w3)) = Some r2 /\
    same_but_visited r1 r2 /\ visit_count r2 = 2.
Proof.
  apply (submit_then_resolve_twice counting has_scheme app_config
           1 1 1000 1001 2000 3000 page one_row).
  - reflexivity.
  - lia.
  - reflexivity.
  - vm_compute. split; discriminate.
  - vm_compute. discriminate.
  - vm_compute. discriminate.
Defined.

Lemma short_codes_stay_unique_witness :
  NoDup (map short_code (rows after_two)).
Proof.
  apply (short_codes_stay_unique zeros has_scheme app_config).
  apply (reachable_step zeros has_scheme app_config after_one
           (Shorten 0 1000 1001 page (Some "my-code"%string))
           (Created (short_url_of app_config "my-code") page)).
  - apply (reachable_step zeros has_scheme app_config empty
             (Shorten 0 new_year a_moment_later page None)
             (Created (short_url_of app_config "aaaaaa") page)).
    + apply reachable_start.
    + vm_compute. reflexivity.
  - vm_compute. reflexivity.
Defined.

Lemma expired_row_is_gone_once_witness :
  exists w1,
    redirect_url 600 (short_code first_row) three_rows = (Gone, w1) /\
    (forall x, In x (rows w1) <-> In x (rows three_rows) /\ x <> first_row) /\
    (forall (later : list request) (w2 : world) (now' : DateTime.t),
       run_without zeros has_scheme app_config (short_code first_row)
                   w1 later w2 ->
       redirect_url now' (short_code first_row) w2 = (NotFound, w2)) /\
    forall (later : list request) (now' : DateTime.t),
      Forall (fun rq => creates_nothing rq = true) later ->
      exists w2,
        run zeros has_scheme app_config later w1 = Some w2 /\
        run_without zeros has_scheme app_config (short_code first_row)
                    w1 later w2 /\
        redirect_url now' (short_code first_row) w2 = (NotFound, w2).
Proof.
  apply (expired_row_is_gone_once zeros has_scheme app_config
           600 first_row 500 three_rows).
  - unfold unique_codes. simpl. distinct.
  - unfold unique_ids. simpl. distinct.
  - left. reflexivity.
  - reflexivity.
  - lia.
Defined.

(** C3, as stated, fails: the code of a row that expired at 500 answers
    410 at 600; submitted again as custom code at 1000 it is stored anew,
    and the next resolution of the same code redirects instead of
    answering 404. *)
Lemma expired_code_resolves_again_once_resubmitted :
  exists w1 w2 w3,
    expires_at first_row = Some 500 /\
    redirect_url 600 (short_code first_row) three_rows = (Gone, w1) /\
    api_create_short_url zeros has_scheme app_config 0 1000 1001 page
                         (Some (short_code first_row)) w1
    = Some (Created (short_url_of app_config (short_code first_row)) page,
            w2) /\
    redirect_url 1000 (short_code first_row) w2 = (Redirect page, w3) /\
    fst (redirect_url 1000 (short_code first_row) w2) <> NotFound.
Proof.
  eexists. eexists. eexists.
  split; [reflexivity|].
  split; [vm_compute; reflexivity|].
  split; [vm_compute; reflexivity|].
  split; [vm_compute; reflexivity|].
  vm_compute. discriminate.
Qed.

Lemma rejected_submission_writes_nothing_witness :
  api_create_short_url counting has_scheme app_config 1 1000 1001
                       page (Some "abcdef"%string) one_row
  = Some (BadRequest CodeInUse, one_row) /\
  rows one_row = rows one_row /\
  (forall msg, BadRequest CodeInUse = BadRequest msg ->
     msg = InvalidURL \/ msg = CodeInUse \/ msg = InvalidCode).
Proof.
  split; [reflexivity|].
  apply (rejected_submission_writes_nothing counting has_scheme app_config
           1 1000 1001 page (Some "abcdef"%string) one_row one_row
           (BadRequest CodeInUse)).
  - reflexivity.
  - intros short_url url'. discriminate.
Defined.

Lemma sweep_deletes_the_expired_witness :
  exists tbl,
    cleanup_expired_urls 600 three_rows = (Removed 1, mkWorld tbl 0) /\
    tbl = filter (fun r => negb (Db.is_expired 600 r)) (rows three_rows) /\
    filter (Db.is_expired 600) tbl = [] /\
    filter (expires_later 600) tbl
    = filter (expires_later 600) (rows three_rows) /\
    List.length (filter (expires_later 600) tbl) = 1%nat /\
    (List.length tbl + 1 = List.length (rows three_rows))%nat.
Proof.
  apply (sweep_deletes_the_expired 600 three_rows 1 1).
  - unfold unique_ids. simpl. distinct.
  - reflexivity.
  - reflexivity.
Defined.

Lemma generated_code_has_six_alphanumerics_witness :
  exists C w' r,
    create_short_url_entry counting app_config 1 1000 1001 page
                           (Some EmptyString) one_row
    = Some (Ok C, w') /\
    api_create_short_url counting has_scheme app_config 1 1000 1001
                         page (Some EmptyString) one_row
    = Some (Created (BASE_URL app_config ++ "/" ++ C)%string page, w') /\
    Db.first (Db.filter_by_short_code C (rows w')) = Some r /\
    short_code r = C /\
    String.length C = 6%nat /\
    String.length chars = 62%nat /\
    Forall (fun c => In c (list_ascii_of_string chars)
                     /\ alphanumeric c = true)
           (list_ascii_of_string C).
Proof.
  apply (generated_code_has_six_alphanumerics counting has_scheme app_config
           1 1 1000 1001 page (Some EmptyString) one_row).
  - reflexivity.
  - right. reflexivity.
  - lia.
  - reflexivity.
  - vm_compute. split; discriminate.
Defined.

Lemma malformed_custom_code_is_rejected_witness :
  slug "a b/c" = false /\
  api_create_short_url zeros has_scheme app_config 0 1000 1001
                       page (Some "a b/c"%string) empty
  = Some (BadRequest InvalidCode, empty).
Proof.
  split; [reflexivity|].
  apply (malformed_custom_code_is_rejected zeros has_scheme app_config
           0 1000 1001 page "a b/c" empty).
  - apply reachable_start.
  - reflexivity.
  - discriminate.
  - reflexivity.
Defined.

Lemma expiry_is_submission_clock_plus_retention_witness :
  exists r,
    rows after_one = (rows empty ++ [r])%list /\
    original_url r = page /\
    expires_at r = Some (new_year + DateTime.timedelta_days 30) /\
    created_at r = a_moment_later.
Proof.
  apply (expiry_is_submission_clock_plus_retention zeros has_scheme app_config
           0 new_year a_moment_later page None empty after_one
           (short_url_of app_config "aaaaaa") page).
  vm_compute. reflexivity.
Defined.

Lemma empty_custom_code_means_none_witness :
  exists C p,
    short_url_of app_config "aaaaaa" = short_url_of app_config C /\
    C = join_choices zeros default_length p /\
    String.length C = 6%nat.
Proof.
  destruct (empty_custom_code_means_none zeros has_scheme app_config
              0 new_year a_moment_later page empty) as (_ & _ & _ & H).
  destruct (H (Created (short_url_of app_config "aaaaaa") page) after_one)
    as [_ Hcode].
  - vm_compute. reflexivity.
  - exact (Hcode _ _ eq_refl).
Defined.

Lemma generated_code_is_first_free_witness :
  exists j, (j <= 1)%nat /\
    "ghijkl"%string = candidate counting (cursor one_row) j /\
    cursor two_rows = (cursor one_row + 6 * S j)%nat /\
    (forall i, (i < j)%nat ->
       code_taken (candidate counting (cursor one_row) i) (rows one_row)
       = true) /\
    forall fuel', (j <= fuel')%nat ->
      create_short_url_entry counting app_config fuel' 1000 1001 page None
                             one_row
      = Some (Ok "ghijkl"%string, two_rows).
Proof.
  apply (generated_code_is_first_free counting app_config 1 1000 1001 page
           None one_row two_rows "ghijkl").
  - left. reflexivity.
  - vm_compute. reflexivity.
Defined.

Lemma no_free_candidate_no_answer_witness :
  create_short_url_entry zeros app_config 5 1000 1001 page None after_one
  = None /\
  api_create_short_url zeros has_scheme app_config 5 1000 1001 page None
                       after_one = None.
Proof.
  apply (no_free_candidate_no_answer zeros has_scheme app_config 5 1000 1001
           page None after_one).
  - reflexivity.
  - left. reflexivity.
  - intros k. reflexivity.
Defined.

Lemma custom_code_round_trip_witness :
  exists w',
    api_create_short_url counting has_scheme app_config 0 1000 1001 page
                         (Some "my-code"%string) one_row
    = Some (Created (short_url_of app_config "my-code") page, w') /\
    cursor w' = cursor one_row /\
    rows w' = (rows one_row
               ++ [new_row app_config (rows one_row) page "my-code"
                           1000 1001])%list /\
    forall t, t <= expiration_from app_config 1000 ->
      fst (redirect_url t "my-code" w') = Redirect page.
Proof.
  apply (custom_code_round_trip counting has_scheme app_config 0 1000 1001
           page "my-code" one_row).
  - reflexivity.
  - discriminate.
  - reflexivity.
  - reflexivity.
  - vm_compute. split; discriminate.
Defined.

Lemma taken_custom_code_is_refused_witness :
  api_create_short_url counting has_scheme app_config 0 1000 1001 page
                       (Some (short_code first_row)) three_rows
  = Some (BadRequest CodeInUse, three_rows).
Proof.
  apply (taken_custom_code_is_refused counting has_scheme app_config
           0 1000 1001 page three_rows first_row).
  - reflexivity.
  - left. reflexivity.
  - discriminate.
Defined.

Lemma submission_keeps_existing_links_witness :
  firstn (List.length (rows one_row)) (rows two_rows) = rows one_row /\
  forall code r,
    Db.first (Db.filter_by_short_code code (rows one_row)) = Some r ->
    Db.first (Db.filter_by_short_code code (rows two_rows)) = Some r.
Proof.
  apply (submission_keeps_existing_links counting has_scheme app_config
           1 1000 1001 page None one_row two_rows
           (short_url_of app_config "ghijkl") page).
  vm_compute. reflexivity.
Defined.

Lemma requests_only_raise_visit_count_witness :
  (exists r, In r (rows three_rows) /\ same_but_visited r first_row_visited)
  \/ (visit_count first_row_visited = 0 /\
      ~ In (id first_row_visited) (map id (rows three_rows)) /\
      ~ In (short_code first_row_visited)
           (map short_code (rows three_rows))).
Proof.
  apply (requests_only_raise_visit_count zeros has_scheme app_config
           (Visit 400 "abcdef") three_rows
           (snd (redirect_url 400 "abcdef" three_rows))
           (Redirect page) first_row_visited).
  - unfold unique_ids. simpl. distinct.
  - reflexivity.
  - left. reflexivity.
Defined.

Lemma reachable_rows_are_well_formed_witness :
  NoDup (map id (rows after_one)) /\
  Forall (fun r => 0 <= visit_count r /\ exists e, expires_at r = Some e)
         (rows after_one).
Proof.
  apply (reachable_rows_are_well_formed zeros has_scheme app_config).
  apply (reachable_step zeros has_scheme app_config empty
           (Shorten 0 new_year a_moment_later page None)
           (Created (short_url_of app_config "aaaaaa") page)).
  - apply reachable_start.
  - vm_compute. reflexivity.
Defined.

Lemma resolutions_are_counted_witness :
  exists w' r',
    redirect_each [400; 450; 500] "abcdef" three_rows
    = (repeat (Redirect (original_url first_row)) 3, w') /\
    Db.first (Db.filter_by_short_code "abcdef" (rows w')) = Some r' /\
    same_but_visited first_row r' /\
    visit_count r' = visit_count first_row + 3 /\
    List.length (rows w') = List.length (rows three_rows).
Proof.
  apply (resolutions_are_counted [400; 450; 500] "abcdef" three_rows
           first_row).
  - reflexivity.
  - repeat constructor.
  - vm_compute. discriminate.
Defined.

Lemma resolution_leaves_other_codes_witness :
  Db.filter_by_short_code "my-code"
    (rows (snd (redirect_url 600 "abcdef" three_rows)))
  = Db.filter_by_short_code "my-code" (rows three_rows).
Proof.
  apply (resolution_leaves_other_codes 600 "abcdef" "my-code" three_rows).
  - unfold unique_ids. simpl. distinct.
  - discriminate.
Defined.

Lemma resolution_and_sweep_agree_witness :
  (fst (redirect_url 500 (short_code first_row) three_rows) = Gone
   <-> exists e, expires_at first_row = Some e /\ e < 500) /\
  (~ In first_row (rows (snd (cleanup_expired_urls 500 three_rows)))
   <-> exists e, expires_at first_row = Some e /\ e < 500) /\
  (In first_row (rows (snd (cleanup_expired_urls 500 three_rows)))
   <-> fst (redirect_url 500 (short_code first_row) three_rows)
       = Redirect (original_url first_row)).
Proof.
  apply (resolution_and_sweep_agree 500 three_rows first_row).
  - unfold unique_codes. simpl. distinct.
  - unfold unique_ids. simpl. distinct.
  - left. reflexivity.
Defined.

Lemma nothing_expired_after_sweep_witness :
  cleanup_expired_urls 600 (snd (cleanup_expired_urls 600 three_rows))
  = (Removed 0, snd (cleanup_expired_urls 600 three_rows)) /\
  forall code,
    fst (redirect_url 600 code (snd (cleanup_expired_urls 600 three_rows)))
    <> Gone.
Proof.
  apply (nothing_expired_after_sweep 600 600 three_rows).
  - unfold unique_ids. simpl. distinct.
  - lia.
Defined.

Lemma stats_only_read_witness :
  fst (url_stats app_config "abcdef" three_rows)
  = StatsPage first_row (short_url_of app_config "abcdef") /\
  fst (redirect_url 600 "abcdef" three_rows) = Gone.
Proof.
  destruct (stats_only_read app_config 600 "abcdef" three_rows)
    as (_ & _ & H).
  destruct (H first_row eq_refl) as [Hpage Hgone].
  split; [exact Hpage | exact (Hgone eq_refl)].
Defined.

Lemma expired_code_can_be_claimed_again_witness :
  api_create_short_url zeros has_scheme app_config 0 1000 1001 page
                       (Some (short_code first_row)) three_rows
  = Some (BadRequest CodeInUse, three_rows) /\
  exists w1 w2,
    redirect_url 600 (short_code first_row) three_rows = (Gone, w1) /\
    api_create_short_url zeros has_scheme app_config 0 1000 1001 page
                         (Some (short_code first_row)) w1
    = Some (Created (short_url_of app_config (short_code first_row)) page,
            w2) /\
    forall t, t <= expiration_from app_config 1000 ->
      fst (redirect_url t (short_code first_row) w2) = Redirect page.
Proof.
  apply (expired_code_can_be_claimed_again zeros has_scheme app_config
           0 600 1000 1001 page three_rows first_row).
  - unfold unique_codes. simpl. distinct.
  - unfold unique_ids. simpl. distinct.
  - left. reflexivity.
  - reflexivity.
  - reflexivity.
  - discriminate.
  - reflexivity.
  - vm_compute. split; discriminate.
Defined.

Lemma new_link_lives_until_expiry_witness :
  exists C,
    short_url_of app_config "ghijkl" = short_url_of app_config C /\
    (2000 <= expiration_from app_config 1000 ->
     forall t', t' <= expiration_from app_config 1000 ->
       fst (redirect_url t' C (snd (cleanup_expired_urls 2000 two_rows)))
       = Redirect page) /\
    (expiration_from app_config 1000 < 2000 ->
     forall t',
       fst (redirect_url t' C (snd (cleanup_expired_urls 2000 two_rows)))
       = NotFound).
Proof.
  apply (new_link_lives_until_expiry counting has_scheme app_config
           1 1000 1001 2000 page None one_row two_rows
           (short_url_of app_config "ghijkl") page).
  - unfold unique_ids. simpl. distinct.
  - vm_compute. reflexivity.
Defined.
